(** * mcp-youtube: the subtitle-processing pipeline

    A shallow embedding of [SubtitleProcessor] (cleanText, processSubtitles,
    splitIntoChunks, validateConfig), of [processSubtitleContent] and of
    [formatResponse], followed by the properties of the pipeline.

    JavaScript strings are sequences of UTF-16 code units; they are modelled
    as lists of code units, each a natural number [N].  JavaScript numbers
    are modelled as integers [Z]: the options of the tool are integer
    valued, and word counts and array lengths are integers. *)

From Stdlib Require Import Ascii String DecimalString.
From Stdlib Require QArith.
From Stdlib Require Import List NArith ZArith Lia Bool.
Import ListNotations.

Set Implicit Arguments.

(** ** Strings *)

Module JsString.

Definition char := N.
Definition jsstring := list char.

(** A string literal of the source, code unit by code unit. *)
Definition str (s : string) : jsstring :=
  map N_of_ascii (list_ascii_of_string s).

Definition chr (a : ascii) : char := N_of_ascii a.

Definition eqbStr (a b : jsstring) : bool :=
  if list_eq_dec N.eq_dec a b then true else false.

(** The class [\s] of a regular expression, which is also the set that
    [String.prototype.trim] strips: WhiteSpace and LineTerminator. *)
Definition isSpace (c : char) : bool :=
  existsb (N.eqb c)
    [9; 10; 11; 12; 13; 32; 160; 5760; 8232; 8233; 8239; 8287; 12288; 65279]%N
  || ((8192 <=? c) && (c <=? 8202))%N.

(** The class [\d]. *)
Definition isDigit (c : char) : bool := ((48 <=? c) && (c <=? 57))%N.

Fixpoint dropWhile (p : char -> bool) (s : jsstring) : jsstring :=
  match s with
  | [] => []
  | c :: t => if p c then dropWhile p t else s
  end.

Fixpoint takeWhile (p : char -> bool) (s : jsstring) : jsstring :=
  match s with
  | [] => []
  | c :: t => if p c then c :: takeWhile p t else []
  end.

Definition trimStart (s : jsstring) : jsstring := dropWhile isSpace s.
Definition trimEnd (s : jsstring) : jsstring := rev (dropWhile isSpace (rev s)).

(** [s.trim()] *)
Definition trim (s : jsstring) : jsstring := trimEnd (trimStart s).

Definition nl : char := 10%N.

(** [s.split('\n')]: never empty, the empty string gives one empty line. *)
Fixpoint splitLines (s : jsstring) : list jsstring :=
  match s with
  | [] => [[]]
  | c :: t =>
      if (c =? nl)%N then [] :: splitLines t
      else match splitLines t with
           | h :: r => (c :: h) :: r
           | [] => [[c]]
           end
  end.

(** [a.join(sep)]; the lines of a text are joined with [sep = [nl]]. *)
Fixpoint join (sep : jsstring) (a : list jsstring) : jsstring :=
  match a with
  | [] => []
  | [x] => x
  | x :: r => x ++ sep ++ join sep r
  end.

Fixpoint isPrefix (p s : jsstring) : bool :=
  match p, s with
  | [], _ => true
  | _ :: _, [] => false
  | a :: p', b :: s' => (a =? b)%N && isPrefix p' s'
  end.

(** [s.split(sep)[0]] for a non-empty separator: the text before the first
    occurrence of [sep], the whole string when there is none. *)
Fixpoint beforeFirst (sep s : jsstring) : jsstring :=
  if isPrefix sep s then []
  else match s with
       | [] => []
       | c :: t => c :: beforeFirst sep t
       end.

(** [`${n}`] for an integer. *)
Definition ofZ (n : Z) : jsstring := str (NilZero.string_of_int (Z.to_int n)).

End JsString.
Import JsString.

(** ** Regular expressions of the source

    A matcher tells, for the text that starts at the current position,
    whether the pattern matches there and how many code units the match
    takes.  None of the patterns of the source looks behind the position. *)

Module Regex.

Definition matcher := jsstring -> option nat.

Inductive atom :=
| Lit (c : char)     (* one given code unit *)
| Digit.             (* \d *)

Definition atomOk (a : atom) (c : char) : bool :=
  match a with
  | Lit d => (c =? d)%N
  | Digit => isDigit c
  end.

Fixpoint matchesAtoms (p : list atom) (s : jsstring) : bool :=
  match p, s with
  | [], _ => true
  | _ :: _, [] => false
  | a :: p', c :: s' => atomOk a c && matchesAtoms p' s'
  end.

(** A pattern that is a fixed sequence of atoms. *)
Definition matchAtoms (p : list atom) : matcher :=
  fun s => if matchesAtoms p s then Some (length p) else None.

Definition lits (s : string) : list atom := map Lit (str s).

(** [\d{2}:\d{2}:\d{2}\.\d{3}] *)
Definition clock : list atom :=
  [Digit; Digit; Lit (chr ":"); Digit; Digit; Lit (chr ":");
   Digit; Digit; Lit (chr "."); Digit; Digit; Digit].

(** [/<[^>]+>/]: a [<], one or more code units other than [>], a [>].
    The greedy [[^>]+] stops at the first [>], and giving code units back
    cannot help, since what follows it must be a [>]. *)
Definition tagRe : matcher :=
  fun s =>
    match s with
    | [] => None
    | c :: t =>
        if (c =? chr "<")%N then
          let body := takeWhile (fun d => negb (d =? chr ">")%N) t in
          match body, skipn (length body) t with
          | _ :: _, _ :: _ => Some (length body + 2)
          | _, _ => None
          end
        else None
    end.

(** [/\s+/]: the longest run of white space, at least one. *)
Definition spacesRe : matcher :=
  fun s =>
    match takeWhile isSpace s with
    | [] => None
    | w => Some (length w)
    end.

(** [s.replace(re, rep)] for a global [re]: the matches are found from left
    to right and do not overlap.  [skip] counts the code units of the
    current match that are still to be dropped.  A match of length zero
    (none of the patterns here has one) keeps the code unit and moves on. *)
Fixpoint replaceFrom (re : matcher) (rep : jsstring) (skip : nat)
    (s : jsstring) : jsstring :=
  match s with
  | [] => match skip, re [] with
          | O, Some _ => rep
          | _, _ => []
          end
  | c :: t =>
      match skip with
      | S k => replaceFrom re rep k t
      | O =>
          match re s with
          | Some (S k) => rep ++ replaceFrom re rep k t
          | Some O => rep ++ c :: replaceFrom re rep 0 t
          | None => c :: replaceFrom re rep 0 t
          end
      end
  end.

Definition replaceAll (re : matcher) (rep s : jsstring) : jsstring :=
  replaceFrom re rep 0 s.

(** [s.split(re)]: [cur] is the piece under construction, kept reversed.
    The empty string gives one empty piece when [re] does not match it. *)
Fixpoint splitFrom (re : matcher) (skip : nat) (cur : jsstring)
    (s : jsstring) : list jsstring :=
  match s with
  | [] => [rev cur]
  | c :: t =>
      match skip with
      | S k => splitFrom re k cur t
      | O =>
          match re s with
          | Some (S k) => rev cur :: splitFrom re k [] t
          | _ => splitFrom re 0 (c :: cur) t
          end
      end
  end.

Definition splitRe (re : matcher) (s : jsstring) : list jsstring :=
  match s with
  | [] => match re [] with Some _ => [] | None => [[]] end
  | _ => splitFrom re 0 [] s
  end.

(** [re.test(s)] for a pattern anchored with [^] and without the global
    flag. *)
Definition test (re : matcher) (s : jsstring) : bool :=
  match re s with Some _ => true | None => false end.

End Regex.
Import Regex.

(** ** The subtitle processor *)

Module SubtitleProcessor.

(** CONSTANTS *)
Definition CHUNK_SIZE_DEFAULT : Z := 5000.
Definition CHUNK_SIZE_MIN : Z := 5000.
Definition CHUNK_SIZE_MAX : Z := 20000.
Definition CHUNKS_DEFAULT : Z := 1.
Definition CHUNKS_MAX : Z := 5.

(** [/^\d{2}:\d{2}:\d{2}\.\d{3} --> \d{2}:\d{2}:\d{2}\.\d{3}/] *)
Definition TIMESTAMP_REGEX : matcher :=
  matchAtoms (clock ++ lits " --> " ++ clock).

(** [/align:start position:0%/] *)
Definition alignRe : matcher := matchAtoms (lits "align:start position:0%").

(** [/\[\d{2}:\d{2}:\d{2}\.\d{3}\]/] *)
Definition stampRe : matcher :=
  matchAtoms (Lit (chr "[") :: clock ++ [Lit (chr "]")]).

Definition cleanText (text : jsstring) : jsstring :=
  trim
    (replaceAll spacesRe (str " ")
       (replaceAll alignRe []
          (replaceAll tagRe [] text))).

(** *** processSubtitles

    The loop pushes [`[${currentTimestamp}] ${cleanedText}`] on the
    transcript.  The step is written once, for any way [mk] of building the
    pushed value from the time stamp and the cleaned text: the source is
    the instance [mk = render], and [mk = Build_TranscriptLine] keeps the
    two parts of every pushed line apart. *)

Record TranscriptLine := {
  timestamp : jsstring;
  text : jsstring
}.

Definition render (ts txt : jsstring) : jsstring :=
  str "[" ++ ts ++ str "] " ++ txt.

Section Builder.
Variable A : Type.
Variable mk : jsstring -> jsstring -> A.

Record BuilderState := {
  transcript : list A;
  currentTimestamp : jsstring;
  previousText : jsstring
}.

Definition builderInit : BuilderState :=
  {| transcript := []; currentTimestamp := []; previousText := [] |}.

Definition builderStep (st : BuilderState) (line0 : jsstring)
    : BuilderState :=
  let line := trim line0 in
  match line with
  | [] => st
  | _ =>
      if test TIMESTAMP_REGEX line then
        {| transcript := transcript st;
           currentTimestamp := beforeFirst (str " -->") line;
           previousText := previousText st |}
      else
        let cleanedText := cleanText line in
        match cleanedText with
        | [] => st
        | _ =>
            if eqbStr cleanedText (previousText st) then st
            else
              {| transcript :=
                   transcript st ++ [mk (currentTimestamp st) cleanedText];
                 currentTimestamp := currentTimestamp st;
                 previousText := cleanedText |}
        end
  end.

Definition builderRun (lines : list jsstring) : BuilderState :=
  fold_left builderStep lines builderInit.
End Builder.

Definition processSubtitles (content : jsstring) : jsstring :=
  join [nl] (transcript (builderRun render (splitLines content))).

(** The lines that [processSubtitles] emits, time stamp and cleaned text
    apart. *)
Definition emitted (content : jsstring) : list TranscriptLine :=
  transcript (builderRun Build_TranscriptLine (splitLines content)).

(** *** splitIntoChunks *)

Definition countWords (line : jsstring) : Z :=
  let textOnly := replaceAll stampRe [] line in
  Z.of_nat (length (splitRe spacesRe (trim textOnly))).

(** The loop pushes [currentChunk.join('\n')] on [chunks].  The step is
    written once, for any way [close] of turning the lines of a finished
    chunk into the pushed value: the source is the instance
    [close = join [nl]]; the identity keeps the lines of every chunk. *)
Section Chunker.
Variable A : Type.
Variable close : list jsstring -> A.
Variable wordLimit : Z.

Record ChunkerState := {
  chunks : list A;
  currentChunk : list jsstring;
  currentWordCount : Z
}.

Definition chunkerInit : ChunkerState :=
  {| chunks := []; currentChunk := []; currentWordCount := 0 |}.

Definition nonEmpty (l : list jsstring) : bool :=
  match l with [] => false | _ => true end.

Definition chunkerStep (st : ChunkerState) (line : jsstring)
    : ChunkerState :=
  let lineWordCount := countWords line in
  let st1 :=
    if (currentWordCount st + lineWordCount >? wordLimit)%Z
       && nonEmpty (currentChunk st)
    then {| chunks := chunks st ++ [close (currentChunk st)];
            currentChunk := [];
            currentWordCount := 0 |}
    else st in
  {| chunks := chunks st1;
     currentChunk := currentChunk st1 ++ [line];
     currentWordCount := (currentWordCount st1 + lineWordCount)%Z |}.

Definition chunkerFinish (st : ChunkerState) : list A :=
  if nonEmpty (currentChunk st)
  then chunks st ++ [close (currentChunk st)]
  else chunks st.

Definition chunkerRun (lines : list jsstring) : list A :=
  chunkerFinish (fold_left chunkerStep lines chunkerInit).
End Chunker.

Definition splitIntoChunks (text : jsstring) (wordLimit : Z)
    : list jsstring :=
  chunkerRun (join [nl]) wordLimit (splitLines text).

(** The chunks of [splitIntoChunks] before they are joined: the lines of
    each chunk. *)
Definition chunkLines (text : jsstring) (wordLimit : Z)
    : list (list jsstring) :=
  chunkerRun (fun g => g) wordLimit (splitLines text).

(** *** validateConfig

    The options bag [args]: each option is a number or is absent
    ([undefined] or [null]). *)
Record Args := {
  argChunkSize : option Z;
  argChunkIndex : option Z;
  argChunks : option Z
}.

Record SubtitleConfig := {
  chunkSize : Z;
  chunkIndex : Z;
  numChunks : Z
}.

(** [v ?? d] *)
Definition orElse (v : option Z) (d : Z) : Z :=
  match v with Some x => x | None => d end.

Definition validateConfig (args : Args) : SubtitleConfig :=
  {| chunkSize :=
       Z.min (Z.max (orElse (argChunkSize args) CHUNK_SIZE_DEFAULT)
                CHUNK_SIZE_MIN)
         CHUNK_SIZE_MAX;
     chunkIndex := orElse (argChunkIndex args) 0;
     numChunks := Z.min (orElse (argChunks args) CHUNKS_DEFAULT) CHUNKS_MAX |}.

End SubtitleProcessor.
Import SubtitleProcessor.

(** ** The response *)

Record ProcessedContent := {
  config : SubtitleConfig;
  pchunks : list jsstring;
  totalChunks : Z
}.

Definition processSubtitleContent (content : jsstring) (args : Args)
    : ProcessedContent :=
  let fullContent := processSubtitles content in
  let config := validateConfig args in
  let chunks := splitIntoChunks fullContent (chunkSize config) in
  {| config := config;
     pchunks := chunks;
     totalChunks := Z.of_nat (length chunks) |}.

(** A call either returns a value or throws an [Error] with a message. *)
Inductive outcome (A : Type) :=
| Returns (v : A)
| Throws (message : jsstring).
Arguments Returns {A} v.
Arguments Throws {A} message.

(** [a.slice(start, end)], negative indices counting from the end. *)
Definition slice (A : Type) (a : list A) (start stop : Z) : list A :=
  let len := Z.of_nat (length a) in
  let from := if (start <? 0)%Z then Z.max (len + start) 0
              else Z.min start len in
  let to := if (stop <? 0)%Z then Z.max (len + stop) 0
            else Z.min stop len in
  firstn (Z.to_nat (to - from)) (skipn (Z.to_nat from) a).

(** [a.map((x, idx) => f x idx)] *)
Fixpoint mapFrom (A B : Type) (f : A -> Z -> B) (idx : Z) (a : list A)
    : list B :=
  match a with
  | [] => []
  | x :: r => f x idx :: mapFrom f (idx + 1) r
  end.

Definition divider : jsstring := str "=====================".

Definition formatResponse (processed : ProcessedContent)
    : outcome jsstring :=
  let config := config processed in
  let chunks := pchunks processed in
  let totalChunks := totalChunks processed in
  if ((chunkIndex config <? 0) || (chunkIndex config >=? totalChunks))%Z then
    Throws (str "Invalid chunk index. Available chunks: 0-"
              ++ ofZ (totalChunks - 1))
  else
    let endIndex := Z.min (chunkIndex config + numChunks config) totalChunks in
    let selectedChunks := slice chunks (chunkIndex config) endIndex in
    Returns
      (str "Configuration:" ++ [nl]
       ++ str "- Chunk size: " ++ ofZ (chunkSize config) ++ str " words"
       ++ [nl]
       ++ str "- Starting chunk: " ++ ofZ (chunkIndex config + 1) ++ [nl]
       ++ str "- Chunks requested: " ++ ofZ (numChunks config) ++ [nl]
       ++ str "- Total available chunks: " ++ ofZ totalChunks ++ [nl]
       ++ divider ++ [nl]
       ++ [nl]
       ++ join ([nl] ++ divider ++ [nl])
            (mapFrom
               (fun chunk idx =>
                  str "[Chunk " ++ ofZ (chunkIndex config + idx + 1)
                  ++ str "/" ++ ofZ totalChunks ++ str "]" ++ [nl]
                  ++ chunk ++ [nl])
               0 selectedChunks)).

(** ** Vocabulary of the properties *)

Module Props.

(** The lines of the chunks and of the transcript, for a list of lines. *)
Definition chunkLinesOf (wordLimit : Z) (lines : list jsstring)
    : list (list jsstring) :=
  chunkerRun (fun g => g) wordLimit lines.

Definition emittedOf (lines : list jsstring) : list TranscriptLine :=
  transcript (builderRun Build_TranscriptLine lines).

Definition renderLine (l : TranscriptLine) : jsstring :=
  render (timestamp l) (text l).

(** The words of a chunk, for a given way of counting the words of a
    line. *)
Definition sumWords (count : jsstring -> Z) (g : list jsstring) : Z :=
  fold_right (fun l n => (count l + n)%Z) 0%Z g.

(** A chunk is within the limit, or is one line that alone exceeds it. *)
Definition withinLimit (count : jsstring -> Z) (w : Z) (g : list jsstring)
    : bool :=
  (sumWords count g <=? w)%Z
  || match g with
     | [l] => (count l >? w)%Z
     | _ => false
     end.

(** Every chunk after the first starts with a line that did not fit in the
    chunk before it. *)
Fixpoint boundariesOk (count : jsstring -> Z) (w : Z)
    (gs : list (list jsstring)) : bool :=
  match gs with
  | g1 :: tl =>
      match tl with
      | [] => true
      | [] :: _ => false
      | (l :: _) :: _ =>
          (sumWords count g1 + count l >? w)%Z && boundariesOk count w tl
      end
  | [] => true
  end.

(** The word count as the specification words it: a leading time stamp
    token is stripped, the rest is split on runs of white space (trimmed
    first, as the code does). *)
Definition stripLeadingStamp (line : jsstring) : jsstring :=
  match stampRe line with
  | Some k => skipn k line
  | None => line
  end.

Definition countWordsLeading (line : jsstring) : Z :=
  Z.of_nat (length (splitRe spacesRe (trim (stripLeadingStamp line)))).

(** The words of a text are its maximal runs of code units that are not
    white space; [inWord] tells whether the code unit before was in one. *)
Fixpoint wordRuns (inWord : bool) (s : jsstring) : nat :=
  match s with
  | [] => 0
  | c :: t =>
      if isSpace c then wordRuns false t
      else (if inWord then 0 else 1) + wordRuns true t
  end.

Definition wordsIn (s : jsstring) : nat := wordRuns false s.

(** The text ends in a word; [inWord] answers for the empty text. *)
Fixpoint endsInWord (inWord : bool) (s : jsstring) : bool :=
  match s with
  | [] => inWord
  | c :: t => endsInWord (negb (isSpace c)) t
  end.

(** No white space at either end. *)
Definition trimmed (s : jsstring) : bool :=
  match s with
  | [] => true
  | c :: t => negb (isSpace c) && endsInWord true t
  end.

(** A line made of time stamp tokens and white space only. *)
Fixpoint onlyStampsFrom (skip : nat) (s : jsstring) : bool :=
  match s with
  | [] => true
  | c :: t =>
      match skip with
      | S k => onlyStampsFrom k t
      | O =>
          if isSpace c then onlyStampsFrom 0 t
          else match stampRe s with
               | Some (S k) => onlyStampsFrom k t
               | _ => false
               end
      end
  end.

Definition onlyStampsAndSpace (s : jsstring) : bool := onlyStampsFrom 0 s.

(** No two neighbours are the same string. *)
Fixpoint adjacentDistinct (l : list jsstring) : bool :=
  match l with
  | a :: tl =>
      match tl with
      | [] => true
      | b :: _ => negb (eqbStr a b) && adjacentDistinct tl
      end
  | [] => true
  end.

(** A line of the caption file that is a time stamp marker, and one that
    carries text. *)
Definition isMarker (line : jsstring) : bool :=
  test TIMESTAMP_REGEX (trim line).

Definition isTextLine (line : jsstring) : bool :=
  negb (eqbStr (trim line) []) && negb (isMarker line).

(** The text holds a [>]. *)
Definition hasGt (s : jsstring) : bool :=
  existsb (fun c => (c =? chr ">")%N) s.

(** The text starts with a [<] that opens a tag: the next code unit is
    not [>], and a [>] comes later. *)
Definition opensTag (s : jsstring) : bool :=
  match s with
  | c :: d :: t => (c =? chr "<")%N && negb (d =? chr ">")%N && hasGt t
  | _ => false
  end.

(** White space is normal when it is single spaces only. *)
Fixpoint wsNormal (s : jsstring) : bool :=
  match s with
  | [] => true
  | c :: t =>
      (if isSpace c
       then (c =? chr " ")%N
            && match t with
               | [] => true
               | d :: _ => negb (isSpace d)
               end
       else true)
      && wsNormal t
  end.

(** The pattern matches somewhere in the string. *)
Fixpoint occurs (re : matcher) (s : jsstring) : bool :=
  match s with
  | [] => test re []
  | _ :: t => test re s || occurs re t
  end.

(** The message of the error that [formatResponse] throws. *)
Definition invalidIndexMessage (total : Z) : jsstring :=
  str "Invalid chunk index. Available chunks: 0-" ++ ofZ (total - 1).

(** A line holds no newline. *)
Definition noNl (line : jsstring) : bool :=
  forallb (fun c => negb (c =? nl)%N) line.

(** What the source pushes is the image under [close] of the lines. *)
Definition mapChunks (A : Type) (close : list jsstring -> A)
    (st : ChunkerState (list jsstring)) : ChunkerState A :=
  {| chunks := map close (chunks st);
     currentChunk := currentChunk st;
     currentWordCount := currentWordCount st |}.

(** The invariant of the loop, after the lines [seen]. *)
Record chunkerInv (wordLimit : Z) (seen : list jsstring)
    (st : ChunkerState (list jsstring)) : Prop := {
  inv_lines : concat (chunks st) ++ currentChunk st = seen;
  inv_closed : Forall (fun g => g <> []) (chunks st);
  inv_count : currentWordCount st = sumWords countWords (currentChunk st);
  inv_first : currentChunk st = [] -> chunks st = [];
  inv_limit :
    forallb (withinLimit countWords wordLimit)
      (chunkerFinish (fun g => g) st) = true;
  inv_bound :
    boundariesOk countWords wordLimit (chunkerFinish (fun g => g) st) = true
}.

(** What the source pushes is the rendering of the two parts. *)
Definition renderState (st : BuilderState TranscriptLine)
    : BuilderState jsstring :=
  {| transcript := map renderLine (transcript st);
     currentTimestamp := currentTimestamp st;
     previousText := previousText st |}.

(** The invariant of the loop. *)
Record builderInv (st : BuilderState TranscriptLine) : Prop := {
  binv_previous : previousText st = last (map text (transcript st)) [];
  binv_distinct : adjacentDistinct (map text (transcript st)) = true
}.

(** The start time of a marker, as the loop keeps it. *)
Definition startTime (marker : jsstring) : jsstring :=
  beforeFirst (str " -->") (trim marker).

(** A text without [<]. *)
Definition noLt (s : jsstring) : bool :=
  forallb (fun c => negb (c =? chr "<")%N) s.

(** A text that does not start with white space. *)
Definition headNotSpace (s : jsstring) : bool :=
  match s with
  | [] => true
  | d :: _ => negb (isSpace d)
  end.

End Props.
Import Props.

(** ** URL validation *)

Module Url.

(** The class [\w], and the class [[\w-]] of the video identifier. *)
Definition isWordChar (c : char) : bool :=
  ((48 <=? c) && (c <=? 57) || (65 <=? c) && (c <=? 90)
   || (97 <=? c) && (c <=? 122) || (c =? 95))%N.

Definition isIdChar (c : char) : bool := isWordChar c || (c =? chr "-")%N.

Fixpoint stripPrefix (p s : jsstring) : option jsstring :=
  match p, s with
  | [], _ => Some s
  | _ :: _, [] => None
  | a :: p', b :: s' => if (a =? b)%N then stripPrefix p' s' else None
  end.

(** The pieces of the three patterns: a literal text, an optional literal
    text ([s?], [(www\.)?]) and [[\w-]{n}]. *)
Inductive item :=
| Text (s : jsstring)
| Maybe (s : jsstring)
| IdChars (n : nat).

(** A pattern anchored with [^] and [$]: the whole string must match.  An
    optional piece is tried first with the text, then without it. *)
Fixpoint matchToEnd (items : list item) (s : jsstring) : bool :=
  match items with
  | [] => match s with [] => true | _ => false end
  | Text p :: r =>
      match stripPrefix p s with
      | Some s' => matchToEnd r s'
      | None => false
      end
  | Maybe p :: r =>
      match stripPrefix p s with
      | Some s' => matchToEnd r s' || matchToEnd r s
      | None => matchToEnd r s
      end
  | IdChars n :: r =>
      (n <=? length s)%nat && forallb isIdChar (firstn n s)
      && matchToEnd r (skipn n s)
  end.

(** [/^https?:\/\/(www\.)?youtube\.com\/watch\?v=[\w-]{11}$/],
    [/^https?:\/\/youtu\.be\/[\w-]{11}$/] and
    [/^https?:\/\/(www\.)?youtube\.com\/embed\/[\w-]{11}$/] *)
Definition patterns : list (list item) :=
  [ [Text (str "http"); Maybe (str "s"); Text (str "://");
     Maybe (str "www."); Text (str "youtube.com/watch?v="); IdChars 11];
    [Text (str "http"); Maybe (str "s"); Text (str "://youtu.be/");
     IdChars 11];
    [Text (str "http"); Maybe (str "s"); Text (str "://");
     Maybe (str "www."); Text (str "youtube.com/embed/"); IdChars 11] ].

Definition isValidYoutubeUrl (url : jsstring) : bool :=
  existsb (fun pattern => matchToEnd pattern url) patterns.

End Url.
Import Url.

(** ** The tool call

    What is outside the program, the run of [yt-dlp] and the reading of
    the files it leaves in the temporary directory, is a parameter
    [fetch]: for a URL it gives the files in the order of [readdirSync],
    each with its name and content, or it fails, and then gives the thrown
    value as [`${err}`] renders it. *)

Module Tool.

(** [isError] is left out of a response that is not an error: [false]. *)
Record ToolResponse := {
  responseText : jsstring;
  isError : bool
}.

(** [`${err}`] for [err = new Error(message)] *)
Definition errorToString (message : jsstring) : jsstring :=
  str "Error: " ++ message.

(** [`${file}\n====================\n${fileContent}`] *)
Definition fileEntry (file fileContent : jsstring) : jsstring :=
  file ++ [nl] ++ str "====================" ++ [nl] ++ fileContent.

Definition concatFiles (files : list (jsstring * jsstring)) : jsstring :=
  fold_left (fun content f => content ++ fileEntry (fst f) (snd f)) files [].

Section Handler.
Variable fetch : jsstring -> list (jsstring * jsstring) + jsstring.

(** The content, or the thrown value as a string. *)
Definition validateAndDownloadSubtitles (url : jsstring)
    : jsstring + jsstring :=
  if negb (isValidYoutubeUrl url) then
    inr (errorToString (str "Invalid YouTube URL provided"))
  else
    match fetch url with
    | inl files => inl (concatFiles files)
    | inr err => inr err
    end.

Definition errorResponse (err : jsstring) : ToolResponse :=
  {| responseText := str "Error downloading video: " ++ err;
     isError := true |}.

Definition processYoutubeSubtitles (url : jsstring) (args : Args)
    : ToolResponse :=
  match validateAndDownloadSubtitles url with
  | inr err => errorResponse err
  | inl content =>
      let processed := processSubtitleContent content args in
      match formatResponse processed with
      | Throws message => errorResponse (errorToString message)
      | Returns formattedResponse =>
          {| responseText := formattedResponse; isError := false |}
      end
  end.

End Handler.

End Tool.
Import Tool.

(** ** The options as values of any kind

    [validateConfig] takes [args: any]: an option can be absent or [null],
    a number, or a value of another kind (a string, a boolean, an array, an
    object).  Here an option is such a value.  A number is [NaN], an
    infinity or a finite value; a finite value is taken as a rational, as
    every finite double is one, and [Math.max], [Math.min] and the
    comparisons are exact on doubles (the sign of zero is left out).  A
    value of another kind is given with the number that [ToNumber] makes of
    it, which is all that [Math.max] and [Math.min] read: [NaN] for the
    string "abc", 7000 for the string "7000". *)

Module Dynamic.

Definition rational := QArith_base.Q.

Inductive JsNumber :=
| NaN
| NegInf
| PosInf
| Fin (q : rational).

Inductive JsValue :=
| Undefined
| Null
| Number (x : JsNumber)
| NonNumber (asNumber : JsNumber).

Definition ofInt (z : Z) : JsNumber := Fin (QArith_base.inject_Z z).

(** [ToNumber(v)] *)
Definition toNumber (v : JsValue) : JsNumber :=
  match v with
  | Undefined => NaN
  | Null => ofInt 0
  | Number x => x
  | NonNumber x => x
  end.

(** [v ?? d] *)
Definition orDefault (v : JsValue) (d : JsNumber) : JsValue :=
  match v with
  | Undefined | Null => Number d
  | _ => v
  end.

(** [Math.max(a, b)] and [Math.min(a, b)] on numbers *)
Definition mathMax (a b : JsNumber) : JsNumber :=
  match a, b with
  | NaN, _ | _, NaN => NaN
  | PosInf, _ | _, PosInf => PosInf
  | NegInf, x | x, NegInf => x
  | Fin p, Fin q => if QArith_base.Qle_bool p q then Fin q else Fin p
  end.

Definition mathMin (a b : JsNumber) : JsNumber :=
  match a, b with
  | NaN, _ | _, NaN => NaN
  | NegInf, _ | _, NegInf => NegInf
  | PosInf, x | x, PosInf => x
  | Fin p, Fin q => if QArith_base.Qle_bool p q then Fin p else Fin q
  end.

Record AnyArgs := {
  anyChunkSize : JsValue;
  anyChunkIndex : JsValue;
  anyChunks : JsValue
}.

(** The configuration as the code builds it: [chunkSize] and [numChunks]
    come out of [Math.min] and are numbers, [chunkIndex] is the option as
    it was given, or 0. *)
Record AnyConfig := {
  chunkSizeOf : JsNumber;
  chunkIndexOf : JsValue;
  numChunksOf : JsNumber
}.

Definition validateConfigAny (args : AnyArgs) : AnyConfig :=
  {| chunkSizeOf :=
       mathMin
         (mathMax
            (toNumber
               (orDefault (anyChunkSize args) (ofInt CHUNK_SIZE_DEFAULT)))
            (ofInt CHUNK_SIZE_MIN))
         (ofInt CHUNK_SIZE_MAX);
     chunkIndexOf := orDefault (anyChunkIndex args) (ofInt 0);
     numChunksOf :=
       mathMin (toNumber (orDefault (anyChunks args) (ofInt CHUNKS_DEFAULT)))
         (ofInt CHUNKS_MAX) |}.

(** The options that are integers or absent, as values of any kind. *)
Definition ofOption (v : option Z) : JsValue :=
  match v with
  | Some z => Number (ofInt z)
  | None => Undefined
  end.

Definition ofArgs (args : Args) : AnyArgs :=
  {| anyChunkSize := ofOption (argChunkSize args);
     anyChunkIndex := ofOption (argChunkIndex args);
     anyChunks := ofOption (argChunks args) |}.

(** The number lies in [5000, 20000]. *)
Definition inChunkSizeRange (x : JsNumber) : bool :=
  match x with
  | Fin q =>
      QArith_base.Qle_bool (QArith_base.inject_Z 5000) q
      && QArith_base.Qle_bool q (QArith_base.inject_Z 20000)
  | _ => false
  end.

Definition isNaN (x : JsNumber) : bool :=
  match x with NaN => true | _ => false end.

End Dynamic.
Import Dynamic.

(** ** Vocabulary of the further properties *)

Module Vocabulary.

(** [Number.isSafeInteger]: the integers that a number holds exactly and
    that a template literal prints digit by digit. *)
Definition isSafeInteger (z : Z) : bool :=
  ((-9007199254740991 <=? z) && (z <=? 9007199254740991))%Z.

(** The shape of an accepted URL. *)
Definition schemes : list jsstring := [str "http"; str "https"].

Definition hosts : list jsstring :=
  [str "youtube.com/watch?v="; str "www.youtube.com/watch?v=";
   str "youtu.be/"; str "youtube.com/embed/"; str "www.youtube.com/embed/"].

(** The code units an accepted URL is made of: those of [[\w-]] and
    [: / . ? =]. *)
Definition isUrlChar (c : char) : bool :=
  isIdChar c || existsb (N.eqb c) (str ":/.?=").

(** The form of a cleaned text: no tag, no positioning token, white space
    as single spaces only and none at either end. *)
Definition cleanForm (s : jsstring) : bool :=
  negb (occurs tagRe s) && negb (occurs alignRe s) && wsNormal s && trimmed s.

(** The form of a start time, [dd:dd:dd.ddd]. *)
Definition clockShape (ts : jsstring) : bool :=
  matchesAtoms clock ts && (length ts =? 12)%nat.

(** A line that adds nothing to an empty transcript: it is blank, a
    marker, or its cleaned text is empty. *)
Definition silentLine (line : jsstring) : bool :=
  negb (isTextLine line) || eqbStr (cleanText (trim line)) [].

(** The text with every newline preceded by a carriage return. *)
Definition cr : char := 13%N.

Definition toCRLF (s : jsstring) : jsstring :=
  flat_map (fun c => if (c =? nl)%N then [cr; nl] else [c]) s.

(** An atom that does not match a newline. *)
Definition atomNotNl (a : atom) : bool :=
  match a with
  | Lit d => negb (d =? nl)%N
  | Digit => true
  end.

(** A time stamp as the transcript carries it: empty, or a start time. *)
Definition stampOk (ts : jsstring) : bool := eqbStr ts [] || clockShape ts.

(** The words of a text, line by line, as the chunker counts them. *)
Definition totalWords (text : jsstring) : Z :=
  sumWords countWords (splitLines text).

(** The chunks that [formatResponse] selects, and the two parts of its
    report. *)
Definition selectedChunks (p : ProcessedContent) : list jsstring :=
  slice (pchunks p) (chunkIndex (config p))
    (Z.min (chunkIndex (config p) + numChunks (config p)) (totalChunks p)).

Definition responseHeader (p : ProcessedContent) : jsstring :=
  str "Configuration:" ++ [nl]
  ++ str "- Chunk size: " ++ ofZ (chunkSize (config p)) ++ str " words"
  ++ [nl]
  ++ str "- Starting chunk: " ++ ofZ (chunkIndex (config p) + 1) ++ [nl]
  ++ str "- Chunks requested: " ++ ofZ (numChunks (config p)) ++ [nl]
  ++ str "- Total available chunks: " ++ ofZ (totalChunks p) ++ [nl]
  ++ divider ++ [nl]
  ++ [nl].

Definition chunkBlock (p : ProcessedContent) (chunk : jsstring) (idx : Z)
    : jsstring :=
  str "[Chunk " ++ ofZ (chunkIndex (config p) + idx + 1)
  ++ str "/" ++ ofZ (totalChunks p) ++ str "]" ++ [nl]
  ++ chunk ++ [nl].

Definition responseBody (p : ProcessedContent) (selected : list jsstring)
    : jsstring :=
  join ([nl] ++ divider ++ [nl]) (mapFrom (chunkBlock p) 0 selected).

(** The marker of the SubRip form, with a comma before the milliseconds:
    [dd:dd:dd,ddd --> dd:dd:dd,ddd]. *)
Definition srtClock : list atom :=
  [Digit; Digit; Lit (chr ":"); Digit; Digit; Lit (chr ":");
   Digit; Digit; Lit (chr ","); Digit; Digit; Digit].

Definition SRT_MARKER : matcher :=
  matchAtoms (srtClock ++ lits " --> " ++ srtClock).

(** The line that [validateAndDownloadSubtitles] puts under a file name. *)
Definition fileRule : jsstring := str "====================".


End Vocabulary.
Import Vocabulary.

(** ** The configuration and the response *)

Section Config.

(** When the chunkSize option is an integer or is absent, the resolved
    chunkSize lies in [5000, 20000]; an absent option gives 5000, a value
    below 5000 gives 5000, a value above 20000 gives 20000, a value in the
    range is kept; so 1 gives 5000 and 999999 gives 20000. *)
Theorem validateConfig_chunkSize_clamped (args : Args) :
  (5000 <= chunkSize (validateConfig args) <= 20000)%Z
  /\ chunkSize (validateConfig args) =
       match argChunkSize args with
       | None => 5000%Z
       | Some v =>
           if (v <? 5000)%Z then 5000%Z
           else if (20000 <? v)%Z then 20000%Z else v
       end
  /\ (forall i n, chunkSize (validateConfig
        {| argChunkSize := Some 1%Z; argChunkIndex := i; argChunks := n |})
        = 5000%Z)
  /\ (forall i n, chunkSize (validateConfig
        {| argChunkSize := Some 999999%Z; argChunkIndex := i;
           argChunks := n |}) = 20000%Z).
Proof.
  unfold validateConfig, CHUNK_SIZE_DEFAULT, CHUNK_SIZE_MIN, CHUNK_SIZE_MAX.
  cbn [chunkSize argChunkSize orElse].
  repeat split; try lia; try reflexivity.
  destruct (argChunkSize args) as [v|]; cbn [orElse]; [|reflexivity].
  destruct (Z.ltb_spec v 5000); [lia|].
  destruct (Z.ltb_spec 20000 v); lia.
Qed.

(** C9: the resolved numChunks is the smaller of the requested value and 5,
    and 1 when no value is given; nothing bounds it from below, so 0 and
    negative values come out unchanged. *)
Theorem validateConfig_numChunks_upper_only (args : Args) :
  numChunks (validateConfig args) =
    match argChunks args with
    | None => 1%Z
    | Some v => Z.min v 5
    end
  /\ numChunks (validateConfig args) =
       match argChunks args with
       | None => 1%Z
       | Some v => if (v <=? 5)%Z then v else 5%Z
       end
  /\ (forall s i, numChunks (validateConfig
        {| argChunkSize := s; argChunkIndex := i; argChunks := Some 0%Z |})
        = 0%Z)
  /\ (forall s i, numChunks (validateConfig
        {| argChunkSize := s; argChunkIndex := i;
           argChunks := Some (-3)%Z |}) = (-3)%Z).
Proof.
  unfold validateConfig, CHUNKS_DEFAULT, CHUNKS_MAX.
  cbn [numChunks argChunks orElse].
  repeat split; try reflexivity.
  - destruct (argChunks args); reflexivity.
  - destruct (argChunks args) as [v|]; cbn [orElse]; [|reflexivity].
    destruct (Z.leb_spec v 5); lia.
Qed.

Lemma formatResponse_cases (p : ProcessedContent) :
  (((chunkIndex (config p) <? 0) || (chunkIndex (config p) >=? totalChunks p))%Z
     = true
   /\ formatResponse p = Throws (invalidIndexMessage (totalChunks p)))
  \/ (((chunkIndex (config p) <? 0)
       || (chunkIndex (config p) >=? totalChunks p))%Z = false
      /\ exists v, formatResponse p = Returns v).
Proof.
  unfold formatResponse.
  destruct ((chunkIndex (config p) <? 0)
            || (chunkIndex (config p) >=? totalChunks p))%Z.
  - left. split; reflexivity.
  - right. split; [reflexivity | eexists; reflexivity].
Qed.

(** C4: formatResponse throws exactly when chunkIndex < 0 or
    chunkIndex >= totalChunks, and the message then gives the range
    0 to totalChunks-1; it returns exactly when the index is in the range;
    chunkIndex 5 with 2 chunks gives
    "Invalid chunk index. Available chunks: 0-1". *)
Theorem formatResponse_invalid_chunk_index (p : ProcessedContent) :
  ((chunkIndex (config p) < 0 \/ chunkIndex (config p) >= totalChunks p)%Z
     <-> formatResponse p = Throws (invalidIndexMessage (totalChunks p)))
  /\ ((chunkIndex (config p) < 0 \/ chunkIndex (config p) >= totalChunks p)%Z
     <-> exists m, formatResponse p = Throws m)
  /\ ((0 <= chunkIndex (config p) < totalChunks p)%Z
     <-> exists v, formatResponse p = Returns v)
  /\ (forall size n c1 c2,
        formatResponse
          {| config := {| chunkSize := size; chunkIndex := 5;
                          numChunks := n |};
             pchunks := [c1; c2];
             totalChunks := 2 |}
        = Throws (str "Invalid chunk index. Available chunks: 0-1")).
Proof.
  split; [|split; [|split]]; [| | |reflexivity];
    destruct (formatResponse_cases p) as [[Hc Hf] | [Hc [v Hf]]];
    rewrite Hf;
    [ apply orb_true_iff in Hc; rewrite Z.ltb_lt, Z.geb_le in Hc
    | apply orb_false_iff in Hc; rewrite Z.ltb_ge, Z.geb_leb, Z.leb_gt in Hc
    | apply orb_true_iff in Hc; rewrite Z.ltb_lt, Z.geb_le in Hc
    | apply orb_false_iff in Hc; rewrite Z.ltb_ge, Z.geb_leb, Z.leb_gt in Hc
    | apply orb_true_iff in Hc; rewrite Z.ltb_lt, Z.geb_le in Hc
    | apply orb_false_iff in Hc; rewrite Z.ltb_ge, Z.geb_leb, Z.leb_gt in Hc ];
    split; intros H; try reflexivity; try lia; eauto;
    try discriminate; try (destruct H as [? H]; discriminate).
Qed.

End Config.

(** ** Lines: split and join *)

Section Lines.

Lemma splitLines_not_nil (s : jsstring) : splitLines s <> [].
Proof.
  destruct s as [|c t]; cbn; [discriminate|].
  destruct (c =? nl)%N; [discriminate|].
  destruct (splitLines t); discriminate.
Qed.

Lemma join_cons (sep x : jsstring) (r : list jsstring) :
  r <> [] -> join sep (x :: r) = x ++ sep ++ join sep r.
Proof. destruct r; [congruence | reflexivity]. Qed.

Lemma join_app (sep : jsstring) (a b : list jsstring) :
  a <> [] -> b <> [] ->
  join sep (a ++ b) = join sep a ++ sep ++ join sep b.
Proof.
  induction a as [|x a IH]; intros Ha Hb; [congruence|].
  destruct a as [|y a].
  - cbn [app]. now rewrite join_cons.
  - change ((x :: y :: a) ++ b) with (x :: ((y :: a) ++ b)).
    rewrite (join_cons sep x (r := (y :: a) ++ b)) by discriminate.
    rewrite (join_cons sep x (r := y :: a)) by discriminate.
    rewrite IH by (discriminate || assumption).
    now rewrite <- !app_assoc.
Qed.

Lemma join_splitLines (s : jsstring) : join [nl] (splitLines s) = s.
Proof.
  induction s as [|c t IH]; [reflexivity|].
  cbn [splitLines].
  destruct (N.eqb_spec c nl) as [->|Hc].
  - rewrite join_cons by apply splitLines_not_nil.
    now rewrite IH.
  - pose proof (splitLines_not_nil t) as Hne.
    destruct (splitLines t) as [|h r]; [congruence|].
    rewrite <- IH. destruct r; reflexivity.
Qed.

Lemma splitLines_noNl (s : jsstring) :
  Forall (fun l => noNl l = true) (splitLines s).
Proof.
  induction s as [|c t IH]; [repeat constructor|].
  cbn [splitLines].
  destruct (N.eqb_spec c nl) as [->|Hc].
  - constructor; [reflexivity | assumption].
  - apply N.eqb_neq in Hc.
    destruct (splitLines t) as [|h r]; inversion IH; subst;
      constructor; trivial; cbn; now rewrite Hc.
Qed.

Lemma splitLines_line (x : jsstring) : noNl x = true -> splitLines x = [x].
Proof.
  induction x as [|c t IH]; [reflexivity|].
  cbn. intros H. apply andb_true_iff in H as [Hc Ht].
  apply negb_true_iff in Hc. rewrite Hc, (IH Ht). reflexivity.
Qed.

Lemma splitLines_line_nl (x rest : jsstring) :
  noNl x = true -> splitLines (x ++ nl :: rest) = x :: splitLines rest.
Proof.
  induction x as [|c t IH]; [reflexivity|].
  cbn. intros H. apply andb_true_iff in H as [Hc Ht].
  apply negb_true_iff in Hc. rewrite Hc, (IH Ht). reflexivity.
Qed.

Lemma splitLines_join (ls : list jsstring) :
  ls <> [] -> Forall (fun l => noNl l = true) ls ->
  splitLines (join [nl] ls) = ls.
Proof.
  induction ls as [|x r IH]; intros Hne Hall; [congruence|].
  inversion Hall as [|? ? Hx Hr]; subst.
  destruct r as [|y r].
  - now apply splitLines_line.
  - rewrite join_cons by discriminate.
    cbn [app]. rewrite splitLines_line_nl by assumption.
    now rewrite IH by (try discriminate; assumption).
Qed.

Lemma join_concat (gs : list (list jsstring)) :
  Forall (fun g => g <> []) gs ->
  join [nl] (map (join [nl]) gs) = join [nl] (concat gs).
Proof.
  induction gs as [|g r IH]; intros Hall; [reflexivity|].
  inversion Hall as [|? ? Hg Hr]; subst.
  destruct r as [|g' r].
  - cbn. now rewrite app_nil_r.
  - change (map (join [nl]) (g :: g' :: r))
      with (join [nl] g :: map (join [nl]) (g' :: r)).
    rewrite join_cons by discriminate.
    rewrite IH by assumption.
    change (concat (g :: g' :: r)) with (g ++ concat (g' :: r)).
    rewrite join_app; [reflexivity | assumption |].
    inversion Hr; subst. cbn. destruct g'; [congruence | discriminate].
Qed.

Lemma concat_map_splitLines (gs : list (list jsstring)) :
  Forall (fun g => g <> []) gs ->
  Forall (fun l => noNl l = true) (concat gs) ->
  concat (map splitLines (map (join [nl]) gs)) = concat gs.
Proof.
  induction gs as [|g r IH]; intros Hne Hall; [reflexivity|].
  inversion Hne; subst.
  cbn [map concat] in *. apply Forall_app in Hall as [Hg Hr].
  rewrite splitLines_join by assumption.
  now rewrite IH.
Qed.

End Lines.

(** ** The chunker *)

Section ChunkerFacts.

Variable wordLimit : Z.

Local Abbreviation idc := (fun g : list jsstring => g).

Lemma chunkerStep_map (A : Type) (close : list jsstring -> A) st line :
  chunkerStep close wordLimit (mapChunks close st) line
  = mapChunks close (chunkerStep idc wordLimit st line).
Proof.
  unfold chunkerStep, mapChunks. cbn.
  destruct ((currentWordCount st + countWords line >? wordLimit)%Z
            && nonEmpty (currentChunk st)); cbn;
    [rewrite map_app|]; reflexivity.
Qed.

Lemma chunkerFold_map (A : Type) (close : list jsstring -> A) lines st :
  fold_left (chunkerStep close wordLimit) lines (mapChunks close st)
  = mapChunks close (fold_left (chunkerStep idc wordLimit) lines st).
Proof.
  revert st. induction lines as [|l r IH]; intros st; [reflexivity|].
  cbn [fold_left]. rewrite chunkerStep_map. apply IH.
Qed.

Lemma chunkerRun_map (A : Type) (close : list jsstring -> A) lines :
  chunkerRun close wordLimit lines
  = map close (chunkerRun idc wordLimit lines).
Proof.
  unfold chunkerRun.
  change (chunkerInit A) with (mapChunks close (chunkerInit (list jsstring))).
  rewrite chunkerFold_map.
  unfold chunkerFinish, mapChunks. cbn.
  destruct (nonEmpty _); [rewrite map_app|]; reflexivity.
Qed.

Lemma sumWords_snoc count g l :
  sumWords count (g ++ [l]) = (sumWords count g + count l)%Z.
Proof.
  induction g as [|x g IH]; cbn; [lia|].
  unfold sumWords in IH. rewrite IH. lia.
Qed.

Lemma withinLimit_single count w l : withinLimit count w [l] = true.
Proof.
  unfold withinLimit. cbn.
  destruct (Z.leb_spec (count l + 0) w); [reflexivity|].
  cbn. apply Z.gtb_lt. lia.
Qed.

Lemma boundariesOk_last count w gs l r r' :
  boundariesOk count w (gs ++ [l :: r]) = true ->
  boundariesOk count w (gs ++ [l :: r']) = true.
Proof.
  induction gs as [|g gs IH]; [reflexivity|].
  cbn [app boundariesOk].
  destruct gs as [|g' gs].
  - cbn. auto.
  - cbn [app] in *. destruct g' as [|x g']; [discriminate|].
    intros H. apply andb_true_iff in H as [H1 H2].
    rewrite H1. cbn. apply IH, H2.
Qed.

Lemma boundariesOk_snoc count w gs g l :
  g <> [] ->
  boundariesOk count w (gs ++ [g]) = true ->
  (sumWords count g + count l >? w)%Z = true ->
  boundariesOk count w (gs ++ [g; [l]]) = true.
Proof.
  intros Hg. induction gs as [|g0 gs IH]; intros H Hc.
  - cbn. now rewrite Hc.
  - cbn [app boundariesOk] in *.
    destruct gs as [|g' gs].
    + cbn [app] in *. destruct g as [|x g]; [congruence|].
      apply andb_true_iff in H as [H1 _]. rewrite H1. cbn.
      cbn in Hc. now rewrite Hc.
    + cbn [app] in *. destruct g' as [|x g']; [discriminate|].
      apply andb_true_iff in H as [H1 H2].
      rewrite H1. cbn. now apply IH.
Qed.

Lemma chunkerInv_init : chunkerInv wordLimit [] (chunkerInit (list jsstring)).
Proof. constructor; cbn; auto. Qed.

Lemma chunkerInv_step seen st line :
  chunkerInv wordLimit seen st ->
  chunkerInv wordLimit (seen ++ [line]) (chunkerStep idc wordLimit st line).
Proof.
  intros [Hl Hc Hn Hf Hlim Hb].
  unfold chunkerStep, chunkerFinish in *.
  destruct (currentChunk st) as [|x cur] eqn:Hcur.
  - (* the first line of the text *)
    rewrite andb_false_r. rewrite Hcur. cbn [nonEmpty app] in *.
    rewrite (Hf eq_refl) in *. cbn in Hl. subst seen.
    constructor; unfold chunkerFinish; cbn; auto.
    + rewrite Hn. cbn. lia.
    + now rewrite withinLimit_single.
  - cbn [nonEmpty] in *. rewrite andb_true_r.
    destruct (Z.gtb_spec (currentWordCount st + countWords line) wordLimit)
      as [Hgt|Hle].
    + (* the line does not fit: the chunk is closed *)
      constructor; unfold chunkerFinish;
        cbn [chunks currentChunk currentWordCount app nonEmpty].
      * rewrite concat_app. cbn. rewrite app_nil_r, <- Hl.
        now rewrite <- !app_assoc.
      * apply Forall_app. split; [assumption|]. repeat constructor.
        discriminate.
      * cbn. lia.
      * discriminate.
      * rewrite <- app_assoc. cbn [app].
        rewrite forallb_app in *. apply andb_true_iff in Hlim as [H1 H2].
        rewrite H1. cbn [forallb] in *. rewrite withinLimit_single.
        apply andb_true_iff in H2 as [H2 _]. now rewrite H2.
      * rewrite <- app_assoc. cbn [app].
        apply boundariesOk_snoc; [discriminate | exact Hb |].
        apply Z.gtb_lt. rewrite <- Hn. lia.
    + (* the line fits *)
      rewrite Hcur.
      constructor; unfold chunkerFinish;
        cbn [chunks currentChunk currentWordCount app nonEmpty].
      * rewrite <- Hl. now rewrite <- app_assoc.
      * assumption.
      * change (x :: cur ++ [line]) with ((x :: cur) ++ [line]).
        rewrite sumWords_snoc. now rewrite Hn.
      * discriminate.
      * rewrite forallb_app in *. apply andb_true_iff in Hlim as [H1 _].
        rewrite H1. cbn [forallb]. rewrite andb_true_r.
        unfold withinLimit.
        change (x :: cur ++ [line]) with ((x :: cur) ++ [line]).
        rewrite sumWords_snoc, <- Hn.
        apply orb_true_iff. left. apply Z.leb_le. lia.
      * eapply boundariesOk_last. exact Hb.
Qed.

Lemma chunkerInv_fold lines seen st :
  chunkerInv wordLimit seen st ->
  chunkerInv wordLimit (seen ++ lines)
    (fold_left (chunkerStep idc wordLimit) lines st).
Proof.
  revert seen st.
  induction lines as [|l r IH]; intros seen st H.
  - now rewrite app_nil_r.
  - cbn [fold_left].
    replace (seen ++ l :: r) with ((seen ++ [l]) ++ r)
      by now rewrite <- app_assoc.
    apply IH, chunkerInv_step, H.
Qed.

Lemma chunkerInv_run lines :
  chunkerInv wordLimit lines
    (fold_left (chunkerStep idc wordLimit) lines (chunkerInit _)).
Proof. apply (chunkerInv_fold lines chunkerInv_init). Qed.

Lemma chunkLinesOf_concat lines :
  concat (chunkLinesOf wordLimit lines) = lines.
Proof.
  destruct (chunkerInv_run lines) as [Hl _ _ Hf _ _].
  unfold chunkLinesOf, chunkerRun, chunkerFinish.
  destruct (currentChunk _) as [|x cur] eqn:Hcur; cbn [nonEmpty].
  - now rewrite app_nil_r in Hl.
  - rewrite concat_app. cbn. now rewrite app_nil_r.
Qed.

Lemma chunkLinesOf_nonempty lines :
  Forall (fun g => g <> []) (chunkLinesOf wordLimit lines).
Proof.
  destruct (chunkerInv_run lines) as [_ Hc _ _ _ _].
  unfold chunkLinesOf, chunkerRun, chunkerFinish.
  destruct (currentChunk _) as [|x cur] eqn:Hcur; cbn [nonEmpty].
  - assumption.
  - apply Forall_app. split; [assumption|]. repeat constructor. discriminate.
Qed.

End ChunkerFacts.

(** ** Trimming *)

Section Trim.

Lemma takeWhile_dropWhile p s : takeWhile p s ++ dropWhile p s = s.
Proof.
  induction s as [|c t IH]; [reflexivity|].
  cbn. destruct (p c); [cbn; now rewrite IH | reflexivity].
Qed.

Lemma takeWhile_all p s : forallb p (takeWhile p s) = true.
Proof.
  induction s as [|c t IH]; [reflexivity|].
  cbn. destruct (p c) eqn:Hc; [cbn; now rewrite Hc | reflexivity].
Qed.

Lemma dropWhile_head p s :
  dropWhile p s = [] \/ exists c t, dropWhile p s = c :: t /\ p c = false.
Proof.
  induction s as [|c t IH]; [now left|].
  cbn. destruct (p c) eqn:Hc; [assumption|].
  right. now exists c, t.
Qed.

Lemma forallb_rev (p : char -> bool) s :
  forallb p s = true -> forallb p (rev s) = true.
Proof.
  rewrite !forallb_forall. intros H x Hx. apply H. now apply in_rev.
Qed.

(** What [trimEnd] cuts off is white space, and what it leaves does not
    end in white space. *)
Lemma trimEnd_spec s :
  exists ws,
    s = trimEnd s ++ ws /\ forallb isSpace ws = true
    /\ (trimEnd s = []
        \/ exists v c, trimEnd s = v ++ [c] /\ isSpace c = false).
Proof.
  unfold trimEnd.
  exists (rev (takeWhile isSpace (rev s))). split; [|split].
  - rewrite <- rev_app_distr, takeWhile_dropWhile. now rewrite rev_involutive.
  - apply forallb_rev, takeWhile_all.
  - destruct (dropWhile_head isSpace (rev s)) as [-> | (c & t & -> & Hc)].
    + now left.
    + right. now exists (rev t), c.
Qed.

Lemma endsInWord_last b s :
  endsInWord b s = true ->
  (s = [] /\ b = true) \/ exists v c, s = v ++ [c] /\ isSpace c = false.
Proof.
  revert b. induction s as [|c t IH]; intros b H; [now left|].
  right. cbn in H. destruct (IH _ H) as [[-> Hc] | (v & c' & -> & Hc')].
  - exists [], c. split; [reflexivity|]. now apply negb_true_iff.
  - now exists (c :: v), c'.
Qed.

Lemma endsInWord_snoc b v c : endsInWord b (v ++ [c]) = negb (isSpace c).
Proof. revert b. induction v as [|x v IH]; intros b; cbn; auto. Qed.

Lemma trimEnd_fixed v c : isSpace c = false -> trimEnd (v ++ [c]) = v ++ [c].
Proof.
  intros Hc. unfold trimEnd. rewrite rev_app_distr. cbn. rewrite Hc.
  change (rev (c :: rev v)) with (rev (rev v) ++ [c]).
  now rewrite rev_involutive.
Qed.

Lemma trimmed_trim_fixed s : trimmed s = true -> trim s = s.
Proof.
  destruct s as [|c t]; [reflexivity|].
  cbn [trimmed]. intros H. apply andb_true_iff in H as [Hc Ht].
  apply negb_true_iff in Hc.
  unfold trim, trimStart. cbn [dropWhile]. rewrite Hc.
  destruct (endsInWord_last _ _ Ht) as [[-> _] | (v & c' & -> & Hc')].
  - now apply (trimEnd_fixed []).
  - now apply (trimEnd_fixed (c :: v)).
Qed.

Lemma trimEnd_keeps_head c t :
  isSpace c = false -> exists t', trimEnd (c :: t) = c :: t'.
Proof.
  intros Hc. destruct (trimEnd_spec (c :: t)) as (ws & Heq & Hws & _).
  destruct (trimEnd (c :: t)) as [|c' t'].
  - cbn in Heq. subst ws. cbn in Hws. now rewrite Hc in Hws.
  - cbn in Heq. injection Heq as <- _. now exists t'.
Qed.

Lemma trim_trimmed s : trimmed (trim s) = true.
Proof.
  unfold trim, trimStart.
  destruct (dropWhile_head isSpace s) as [-> | (c & t & -> & Hc)];
    [reflexivity|].
  destruct (trimEnd_keeps_head c t Hc) as [t' Ht'].
  destruct (trimEnd_spec (c :: t)) as (_ & _ & _ & [Hn | (v & c' & Hv & Hc')]).
  - now rewrite Hn.
  - rewrite Ht' in *. cbn [trimmed]. rewrite Hc. cbn [negb andb].
    destruct v as [|x v]; cbn in Hv; injection Hv as -> ->.
    + reflexivity.
    + rewrite endsInWord_snoc. now rewrite Hc'.
Qed.

Lemma trim_idempotent s : trim (trim s) = trim s.
Proof. apply trimmed_trim_fixed, trim_trimmed. Qed.

End Trim.

(** ** Counting words *)

Section CountWords.

Lemma splitFrom_not_nil re skip cur s : splitFrom re skip cur s <> [].
Proof.
  revert skip cur. induction s as [|c t IH]; intros skip cur; cbn.
  - discriminate.
  - destruct skip; [|apply IH].
    destruct (re (c :: t)) as [[|k]|]; try apply IH. discriminate.
Qed.

Lemma splitRe_spaces_not_nil s : splitRe spacesRe s <> [].
Proof.
  destruct s; cbn; [discriminate|].
  change (splitFrom spacesRe 0 [] (c :: s) <> []). apply splitFrom_not_nil.
Qed.

Lemma countWords_pos line : (1 <= countWords line)%Z.
Proof.
  unfold countWords.
  pose proof (splitRe_spaces_not_nil (trim (replaceAll stampRe [] line))).
  destruct (splitRe _ _); [congruence | cbn [length]; lia].
Qed.

Lemma isSpace_not_bracket c : isSpace c = true -> (c =? chr "[")%N = false.
Proof.
  intros H. destruct (N.eqb_spec c (chr "[")) as [->|]; [|reflexivity].
  discriminate H.
Qed.

Lemma stampRe_space c t : isSpace c = true -> stampRe (c :: t) = None.
Proof.
  intros H. unfold stampRe, matchAtoms.
  cbn [matchesAtoms atomOk app]. now rewrite (isSpace_not_bracket c H).
Qed.

Lemma onlyStamps_removed skip s :
  onlyStampsFrom skip s = true ->
  forallb isSpace (replaceFrom stampRe [] skip s) = true.
Proof.
  revert skip. induction s as [|c t IH]; intros skip H.
  - destruct skip; reflexivity.
  - cbn [onlyStampsFrom replaceFrom] in *.
    destruct skip as [|k]; [|now apply IH].
    destruct (isSpace c) eqn:Hc.
    + rewrite (stampRe_space c t Hc). cbn. rewrite Hc. now apply IH.
    + destruct (stampRe (c :: t)) as [[|k]|]; try discriminate.
      cbn [app]. now apply IH.
Qed.

Lemma dropWhile_all p s : forallb p s = true -> dropWhile p s = [].
Proof.
  induction s as [|c t IH]; [reflexivity|].
  cbn. intros H. apply andb_true_iff in H as [Hc Ht]. now rewrite Hc, IH.
Qed.

Lemma trim_blank s : forallb isSpace s = true -> trim s = [].
Proof.
  intros H. unfold trim, trimStart. now rewrite (dropWhile_all _ _ H).
Qed.

Lemma countWords_onlyStamps line :
  onlyStampsAndSpace line = true -> countWords line = 1%Z.
Proof.
  intros H. unfold countWords, replaceAll.
  now rewrite (trim_blank _ (onlyStamps_removed 0 line H)).
Qed.

(** [split(/\s+/)] cuts a text at its runs of white space: the pieces of a
    text that ends in a word are its words, plus the piece under way. *)
Lemma splitFrom_spaces_length s :
  (forall cur,
      endsInWord true s = true ->
      length (splitFrom spacesRe 0 cur s) = S (wordRuns true s))
  /\ (forall cur,
      endsInWord false s = true ->
      length (splitFrom spacesRe (length (takeWhile isSpace s)) cur s)
      = wordRuns false s).
Proof.
  induction s as [|c t [IHa IHb]].
  - split; intros cur H; [reflexivity | discriminate].
  - assert (Ha : forall cur inWord,
               endsInWord inWord (c :: t) = true ->
               length (splitFrom spacesRe 0 cur (c :: t))
               = S (wordRuns true (c :: t))
                 /\ (isSpace c = false ->
                     length (splitFrom spacesRe 0 cur (c :: t))
                     = S (wordRuns true t))).
    { intros cur inWord H. cbn [endsInWord] in H.
      cbn [splitFrom wordRuns]. unfold spacesRe. cbn [takeWhile].
      destruct (isSpace c) eqn:Hc; cbn [negb length] in *.
      - split; [|discriminate]. now rewrite IHb.
      - split; [|intros _]; now rewrite IHa. }
    split; intros cur H.
    + apply (Ha cur true H).
    + cbn [takeWhile wordRuns]. cbn [endsInWord] in H.
      destruct (isSpace c) eqn:Hc; cbn [length negb] in *.
      * cbn [splitFrom]. now apply IHb.
      * destruct (Ha cur false) as [_ Hn]; [cbn; now rewrite Hc|].
        now rewrite (Hn eq_refl).
Qed.

Lemma wordRuns_blank b ws : forallb isSpace ws = true -> wordRuns b ws = 0%nat.
Proof.
  revert b. induction ws as [|c t IH]; intros b H; [reflexivity|].
  cbn in *. apply andb_true_iff in H as [Hc Ht]. rewrite Hc. now apply IH.
Qed.

Lemma wordRuns_app_blank b v ws :
  forallb isSpace ws = true -> wordRuns b (v ++ ws) = wordRuns b v.
Proof.
  intros H. revert b. induction v as [|c t IH]; intros b; cbn.
  - now apply wordRuns_blank.
  - now rewrite !IH.
Qed.

Lemma wordRuns_trimStart s : wordRuns false (trimStart s) = wordRuns false s.
Proof.
  unfold trimStart. induction s as [|c t IH]; [reflexivity|].
  cbn. destruct (isSpace c) eqn:Hc; [assumption|]. cbn. now rewrite Hc.
Qed.

Lemma wordsIn_trim s : wordsIn (trim s) = wordsIn s.
Proof.
  unfold wordsIn, trim.
  destruct (trimEnd_spec (trimStart s)) as (ws & Heq & Hws & _).
  rewrite <- (wordRuns_trimStart s). rewrite Heq at 2.
  now rewrite wordRuns_app_blank.
Qed.

Lemma splitRe_spaces_trimmed u :
  trimmed u = true ->
  length (splitRe spacesRe u) = Nat.max 1 (wordsIn u).
Proof.
  destruct u as [|c t]; [reflexivity|].
  cbn [trimmed]. intros H. apply andb_true_iff in H as [Hc Ht].
  apply negb_true_iff in Hc.
  destruct (splitFrom_spaces_length (c :: t)) as [_ Hb].
  specialize (Hb []). cbn [takeWhile endsInWord] in Hb.
  rewrite Hc in Hb. cbn [negb length] in Hb.
  unfold splitRe. rewrite (Hb Ht).
  unfold wordsIn. cbn [wordRuns]. rewrite Hc. cbn. reflexivity.
Qed.

(** The count of a line is the number of words left once every time stamp
    token is removed, and 1 when no word is left. *)
Lemma countWords_words line :
  countWords line = Z.of_nat (Nat.max 1 (wordsIn (replaceAll stampRe [] line))).
Proof.
  unfold countWords.
  rewrite splitRe_spaces_trimmed by apply trim_trimmed.
  now rewrite wordsIn_trim.
Qed.

End CountWords.

(** ** Properties of the chunker *)

Section ChunkerProperties.

Lemma splitIntoChunks_chunkLines text w :
  splitIntoChunks text w = map (join [nl]) (chunkLines text w).
Proof. apply chunkerRun_map. Qed.

Lemma splitIntoChunks_empty w : splitIntoChunks [] w = [[]].
Proof.
  unfold splitIntoChunks, chunkerRun, chunkerStep, chunkerFinish.
  cbn [splitLines fold_left chunkerInit currentChunk currentWordCount chunks
       nonEmpty].
  rewrite andb_false_r. reflexivity.
Qed.

(** C1: the chunks, joined with newlines, give back the text; the lines of
    the chunks, taken in order, are the lines of the text; and every chunk
    is the join of whole lines, so none is split between two chunks. *)
Theorem splitIntoChunks_reproduces_lines (text : jsstring) (w : Z) :
  join [nl] (splitIntoChunks text w) = text
  /\ concat (map splitLines (splitIntoChunks text w)) = splitLines text
  /\ splitIntoChunks text w = map (join [nl]) (chunkLines text w)
  /\ concat (chunkLines text w) = splitLines text
  /\ map splitLines (splitIntoChunks text w) = chunkLines text w.
Proof.
  pose proof (chunkLinesOf_concat w (splitLines text)) as Hcat.
  pose proof (chunkLinesOf_nonempty w (splitLines text)) as Hne.
  pose proof (splitLines_noNl text) as Hnl.
  fold (chunkLines text w) in Hcat, Hne. unfold chunkLinesOf in *.
  fold (chunkLines text w) in Hcat, Hne.
  rewrite splitIntoChunks_chunkLines.
  repeat split.
  - rewrite join_concat by assumption.
    rewrite Hcat. apply join_splitLines.
  - rewrite concat_map_splitLines; [assumption | assumption |].
    now rewrite Hcat.
  - assumption.
  - rewrite <- Hcat in Hnl. clear Hcat.
    induction (chunkLines text w) as [|g r IH]; [reflexivity|].
    inversion Hne; subst. cbn [concat] in Hnl.
    apply Forall_app in Hnl as [Hg Hr].
    cbn [map]. rewrite splitLines_join by assumption.
    now rewrite IH.
Qed.

(** C6, as the code has it: every chunk holds at least one line, and the
    empty text gives one chunk, the empty string, never no chunk at all. *)
Theorem splitIntoChunks_no_empty_chunk (text : jsstring) (w : Z) :
  Forall (fun g => g <> []) (chunkLines text w)
  /\ splitIntoChunks text w = map (join [nl]) (chunkLines text w)
  /\ splitIntoChunks text w <> []
  /\ splitIntoChunks [] w = [[]].
Proof.
  pose proof (chunkLinesOf_concat w (splitLines text)) as Hcat.
  pose proof (chunkLinesOf_nonempty w (splitLines text)) as Hne.
  unfold chunkLinesOf in *. fold (chunkLines text w) in Hcat, Hne.
  repeat split.
  - assumption.
  - apply splitIntoChunks_chunkLines.
  - rewrite splitIntoChunks_chunkLines. intros H.
    apply map_eq_nil in H. rewrite H in Hcat. cbn in Hcat.
    symmetry in Hcat. now apply splitLines_not_nil in Hcat.
  - apply splitIntoChunks_empty.
Qed.

(** C6 as stated fails: the empty text does not give the empty list. *)
Lemma splitIntoChunks_empty_text_one_chunk :
  splitIntoChunks [] 5000 <> [] /\ length (splitIntoChunks [] 5000) = 1%nat.
Proof. split; [discriminate | reflexivity]. Qed.

(** C10: every line counts for at least one word; a line made of time
    stamp tokens and white space only (an empty or blank line is one)
    counts for exactly one; so the empty text gives one chunk, the empty
    string, and such a line adds 1 to the running count of its chunk. *)
Theorem countWords_at_least_one :
  (forall line, (1 <= countWords line)%Z)
  /\ (forall line, onlyStampsAndSpace line = true -> countWords line = 1%Z)
  /\ (forall w, splitIntoChunks [] w = [[]])
  /\ (forall (A : Type) (close : list jsstring -> A) w st line,
        onlyStampsAndSpace line = true ->
        currentWordCount (chunkerStep close w st line)
        = ((if (currentWordCount st + 1 >? w)%Z && nonEmpty (currentChunk st)
            then 0 else currentWordCount st) + 1)%Z).
Proof.
  repeat split.
  - apply countWords_pos.
  - apply countWords_onlyStamps.
  - apply splitIntoChunks_empty.
  - intros A close w st line H. unfold chunkerStep.
    rewrite (countWords_onlyStamps line H).
    destruct ((currentWordCount st + 1 >? w)%Z && nonEmpty (currentChunk st));
      reflexivity.
Qed.

Lemma countWords_at_least_one_witness :
  countWords (str " [00:00:01.000]  [12:34:56.789] ") = 1%Z
  /\ countWords [] = 1%Z
  /\ currentWordCount
       (chunkerStep (join [nl]) 5000
          {| chunks := []; currentChunk := [str "a b"];
             currentWordCount := 2 |} (str "   ")) = 3%Z.
Proof.
  split; [|split].
  - apply (proj1 (proj2 countWords_at_least_one)). reflexivity.
  - apply (proj1 (proj2 countWords_at_least_one)). reflexivity.
  - apply (proj2 (proj2 (proj2 countWords_at_least_one))). reflexivity.
Defined.

End ChunkerProperties.

Section ChunkLimit.

Lemma chunkLinesOf_limit w lines :
  forallb (withinLimit countWords w) (chunkLinesOf w lines) = true
  /\ boundariesOk countWords w (chunkLinesOf w lines) = true.
Proof.
  destruct (chunkerInv_run w lines) as [_ _ _ _ Hlim Hb].
  split; assumption.
Qed.

(** C2 as stated fails: with limit 4, two lines that each carry a time
    stamp token in the middle form one chunk; counted with only a leading
    token stripped, the chunk has 6 words and is not a single line. *)
Lemma leading_stamp_count_exceeds_limit :
  let text := str "a [00:00:00.000] b" ++ [nl] ++ str "c [00:00:00.000] d" in
  chunkLines text 4
    = [[str "a [00:00:00.000] b"; str "c [00:00:00.000] d"]]
  /\ countWordsLeading (str "a [00:00:00.000] b") = 3%Z
  /\ countWords (str "a [00:00:00.000] b") = 2%Z
  /\ forallb (withinLimit countWordsLeading 4) (chunkLines text 4) = false.
Proof. vm_compute. repeat split; reflexivity. Qed.

End ChunkLimit.

Section ChunkLimitTheorem.

(** C2, as the code has it: every chunk has at most [w] words, unless it
    is a single line that alone has more; every chunk after the first
    starts with the line that, added to the chunk before, would have taken
    it over [w]; the count of a line is the number of its words once every
    time stamp token, wherever it stands in the line, is removed, and 1
    when no word is left. *)
Theorem chunks_within_word_limit (text : jsstring) (w : Z) :
  forallb (withinLimit countWords w) (chunkLines text w) = true
  /\ boundariesOk countWords w (chunkLines text w) = true
  /\ splitIntoChunks text w = map (join [nl]) (chunkLines text w)
  /\ (forall line,
        countWords line
        = Z.of_nat (Nat.max 1 (wordsIn (replaceAll stampRe [] line)))).
Proof.
  destruct (chunkLinesOf_limit w (splitLines text)) as [Hlim Hb].
  repeat split.
  - exact Hlim.
  - exact Hb.
  - apply splitIntoChunks_chunkLines.
  - apply countWords_words.
Qed.

End ChunkLimitTheorem.

(** ** The transcript builder *)

Section BuilderFacts.

Lemma eqbStr_eq a b : eqbStr a b = true <-> a = b.
Proof.
  unfold eqbStr. destruct (list_eq_dec N.eq_dec a b); split;
    congruence.
Qed.

Lemma eqbStr_neq a b : eqbStr a b = false <-> a <> b.
Proof.
  unfold eqbStr. destruct (list_eq_dec N.eq_dec a b); split;
    congruence.
Qed.

Lemma builderStep_render st line :
  builderStep render (renderState st) line
  = renderState (builderStep Build_TranscriptLine st line).
Proof.
  unfold builderStep.
  destruct (trim line) as [|c t]; [reflexivity|].
  destruct (test TIMESTAMP_REGEX (c :: t)); [reflexivity|].
  destruct (cleanText (c :: t)) as [|d u]; [reflexivity|].
  cbn [previousText renderState].
  destruct (eqbStr (d :: u) (previousText st)); [reflexivity|].
  unfold renderState. cbn. now rewrite map_app.
Qed.

Lemma builderRun_render lines :
  builderRun render lines = renderState (builderRun Build_TranscriptLine lines).
Proof.
  unfold builderRun.
  change (builderInit jsstring) with (renderState (builderInit _)).
  generalize (builderInit TranscriptLine).
  induction lines as [|l r IH]; intros st; [reflexivity|].
  cbn [fold_left]. rewrite builderStep_render. apply IH.
Qed.

Lemma processSubtitles_emitted content :
  processSubtitles content = join [nl] (map renderLine (emitted content)).
Proof.
  unfold processSubtitles, emitted. now rewrite builderRun_render.
Qed.

(** One step of the loop, by the kind of the line. *)
Lemma builderStep_cases (A : Type) (mk : jsstring -> jsstring -> A) st line :
  builderStep mk st line =
    if isMarker line then
      {| transcript := transcript st;
         currentTimestamp := beforeFirst (str " -->") (trim line);
         previousText := previousText st |}
    else if isTextLine line
              && negb (eqbStr (cleanText (trim line)) [])
              && negb (eqbStr (cleanText (trim line)) (previousText st))
    then
      {| transcript :=
           transcript st ++ [mk (currentTimestamp st) (cleanText (trim line))];
         currentTimestamp := currentTimestamp st;
         previousText := cleanText (trim line) |}
    else st.
Proof.
  unfold builderStep, isTextLine, isMarker.
  destruct (trim line) as [|c t] eqn:Ht.
  - cbn. reflexivity.
  - replace (eqbStr (c :: t) []) with false
      by (symmetry; apply eqbStr_neq; discriminate).
    destruct (test TIMESTAMP_REGEX (c :: t)); [reflexivity|].
    cbn [negb andb].
    destruct (cleanText (c :: t)) as [|d u] eqn:Hc; [reflexivity|].
    replace (eqbStr (d :: u) []) with false
      by (symmetry; apply eqbStr_neq; discriminate).
    cbn [negb]. destruct (eqbStr (d :: u) (previousText st)); reflexivity.
Qed.

Lemma builderRun_snoc (A : Type) (mk : jsstring -> jsstring -> A) lines line :
  builderRun mk (lines ++ [line]) = builderStep mk (builderRun mk lines) line.
Proof. unfold builderRun. now rewrite fold_left_app. Qed.

Lemma adjacentDistinct_snoc l c :
  adjacentDistinct l = true ->
  (l <> [] -> last l [] <> c) ->
  adjacentDistinct (l ++ [c]) = true.
Proof.
  induction l as [|a l IH]; intros Hd Hl; [reflexivity|].
  destruct l as [|b l].
  - cbn. rewrite andb_true_r. apply negb_true_iff, eqbStr_neq.
    apply Hl. discriminate.
  - change (adjacentDistinct (a :: (b :: l) ++ [c]) = true).
    cbn [adjacentDistinct app] in *.
    apply andb_true_iff in Hd as [H1 H2]. rewrite H1. cbn [andb].
    apply IH; [assumption|]. intros _. apply Hl. discriminate.
Qed.

Lemma builderInv_step st line :
  builderInv st -> builderInv (builderStep Build_TranscriptLine st line).
Proof.
  intros [Hp Hd]. rewrite builderStep_cases.
  destruct (isMarker line); [constructor; assumption|].
  destruct (isTextLine line && _ && _) eqn:Hc; [|constructor; assumption].
  apply andb_true_iff in Hc as [Hc Hne].
  apply andb_true_iff in Hc as [_ Hnil].
  apply negb_true_iff, eqbStr_neq in Hne, Hnil.
  constructor; cbn [transcript previousText]; rewrite map_app; cbn [map text].
  - now rewrite last_last.
  - apply adjacentDistinct_snoc; [assumption|].
    intros _. rewrite <- Hp. congruence.
Qed.

Lemma builderInv_run lines : builderInv (builderRun Build_TranscriptLine lines).
Proof.
  unfold builderRun.
  assert (H : builderInv (builderInit TranscriptLine))
    by (constructor; reflexivity).
  revert H. generalize (builderInit TranscriptLine).
  induction lines as [|l r IH]; intros st H; [assumption|].
  cbn [fold_left]. apply IH, builderInv_step, H.
Qed.

(** C3: the transcript is the rendering of the emitted lines, no two
    neighbours among them have the same cleaned text, and a text line is
    emitted exactly when its cleaned text is not empty and differs from
    the text emitted last, whatever was emitted earlier: "A", "B", "A"
    are all kept. *)
Theorem no_adjacent_duplicate_text (content : jsstring) :
  processSubtitles content = join [nl] (map renderLine (emitted content))
  /\ adjacentDistinct (map text (emitted content)) = true
  /\ (forall lines line,
        emittedOf (lines ++ [line]) =
          if isTextLine line
             && negb (eqbStr (cleanText (trim line)) [])
             && negb (eqbStr (cleanText (trim line))
                        (last (map text (emittedOf lines)) []))
          then emittedOf lines
                 ++ [{| timestamp :=
                          currentTimestamp
                            (builderRun Build_TranscriptLine lines);
                        text := cleanText (trim line) |}]
          else emittedOf lines)
  /\ map text (emitted (str "A" ++ [nl] ++ str "B" ++ [nl] ++ str "A"))
     = [str "A"; str "B"; str "A"]
  /\ map text (emitted (str "A" ++ [nl] ++ str "A" ++ [nl] ++ str "B"))
     = [str "A"; str "B"].
Proof.
  split; [apply processSubtitles_emitted|].
  split; [apply (binv_distinct (builderInv_run (splitLines content)))|].
  split; [|split; vm_compute; reflexivity].
  intros lines line. unfold emittedOf.
  rewrite builderRun_snoc, builderStep_cases.
  rewrite <- (binv_previous (builderInv_run lines)).
  unfold isTextLine.
  destruct (isMarker line); cbn [negb andb].
  - now rewrite andb_false_r.
  - destruct (eqbStr (trim line) []); cbn [negb andb]; [reflexivity|].
    destruct (eqbStr (cleanText (trim line)) []); cbn [negb andb];
      [reflexivity|].
    destruct (eqbStr (cleanText (trim line)) (previousText _));
      reflexivity.
Qed.

End BuilderFacts.

Section MarkerFacts.

Lemma digit_not_space c : isDigit c = true -> (32 =? c)%N = false.
Proof.
  unfold isDigit. intros H. apply andb_true_iff in H as [H _].
  apply N.leb_le in H. apply N.eqb_neq. lia.
Qed.

(** The time stamp kept for a marker is its start time, the first twelve
    code units. *)
Lemma marker_start_time s :
  test TIMESTAMP_REGEX s = true -> beforeFirst (str " -->") s = firstn 12 s.
Proof.
  unfold test, TIMESTAMP_REGEX, matchAtoms.
  destruct (matchesAtoms _ s) eqn:E; [intros _|discriminate].
  let p := eval vm_compute in (clock ++ lits " --> " ++ clock) in
  change (clock ++ lits " --> " ++ clock) with p in E.
  do 16 (destruct s as [|? s];
         [cbn [matchesAtoms] in E; rewrite ?andb_false_r in E;
          discriminate E|]).
  cbn [matchesAtoms atomOk] in E.
  repeat match type of E with
         | (_ && _) = true => let H := fresh "H" in
                              apply andb_true_iff in E as [H E]
         end.
  repeat match goal with
         | H : (_ =? _)%N = true |- _ => apply N.eqb_eq in H; subst
         | H : isDigit _ = true |- _ => apply digit_not_space in H
         end.
  let q := eval vm_compute in (str " -->") in change (str " -->") with q.
  cbn [beforeFirst isPrefix firstn].
  repeat match goal with
         | H : (32 =? _)%N = false |- _ => rewrite H; clear H
         end.
  reflexivity.
Qed.

Lemma last_cons (A : Type) (a d : A) (l : list A) :
  last (a :: l) d = last l a.
Proof.
  revert a d. induction l as [|b l IH]; intros a d; [reflexivity|].
  change (last (b :: l) d = last (b :: l) a). now rewrite (IH b d), (IH b a).
Qed.

(** Lines that carry no text, markers and blank lines, move the current
    time stamp and nothing else. *)
Lemma builder_marker_run (A : Type) (mk : jsstring -> jsstring -> A) ms st :
  forallb (fun l => negb (isTextLine l)) ms = true ->
  transcript (fold_left (builderStep mk) ms st) = transcript st
  /\ previousText (fold_left (builderStep mk) ms st) = previousText st
  /\ currentTimestamp (fold_left (builderStep mk) ms st)
     = last (map startTime (filter isMarker ms)) (currentTimestamp st).
Proof.
  revert st. induction ms as [|m r IH]; intros st H; [now repeat split|].
  cbn [forallb] in H. apply andb_true_iff in H as [Hm Hr].
  apply negb_true_iff in Hm.
  cbn [fold_left filter].
  destruct (IH (builderStep mk st m) Hr) as (H1 & H2 & H3).
  rewrite H1, H2, H3, builderStep_cases, Hm.
  destruct (isMarker m); cbn [map andb]; rewrite ?last_cons;
    now repeat split.
Qed.

(** The transcript only grows. *)
Lemma builder_transcript_grows (A : Type) (mk : jsstring -> jsstring -> A)
    lines st :
  exists more,
    transcript (fold_left (builderStep mk) lines st) = transcript st ++ more.
Proof.
  revert st. induction lines as [|l r IH]; intros st.
  - exists []. now rewrite app_nil_r.
  - cbn [fold_left]. destruct (IH (builderStep mk st l)) as [more ->].
    rewrite builderStep_cases.
    destruct (isMarker l); [now exists more|].
    destruct (isTextLine l && _ && _); [|now exists more].
    cbn [transcript]. rewrite <- app_assoc. eexists. reflexivity.
Qed.

(** Before the first marker the current time stamp is the empty string. *)
Lemma builder_before_marker lines st :
  forallb (fun l => negb (isMarker l)) lines = true ->
  currentTimestamp st = [] ->
  Forall (fun l => timestamp l = []) (transcript st) ->
  currentTimestamp (fold_left (builderStep Build_TranscriptLine) lines st) = []
  /\ Forall (fun l => timestamp l = [])
       (transcript (fold_left (builderStep Build_TranscriptLine) lines st)).
Proof.
  revert st. induction lines as [|l r IH]; intros st H Hts Hall;
    [now split|].
  cbn [forallb] in H. apply andb_true_iff in H as [Hl Hr].
  apply negb_true_iff in Hl.
  cbn [fold_left]. apply IH; [assumption | |];
    rewrite builderStep_cases, Hl;
    destruct (isTextLine l && _ && _); cbn [currentTimestamp transcript];
    try assumption.
  apply Forall_app. split; [assumption|]. repeat constructor. exact Hts.
Qed.

(** C8: as long as no marker has come, the current time stamp is the
    empty string, every line emitted carries it and is rendered
    "[] text"; a run of lines without a text line, markers and blank lines,
    emits nothing and leaves the time stamp at the start time of its last
    marker. *)
Theorem empty_timestamp_and_marker_runs :
  (forall pre rest,
      forallb (fun l => negb (isMarker l)) pre = true ->
      currentTimestamp (builderRun Build_TranscriptLine pre) = []
      /\ Forall (fun l => timestamp l = []) (emittedOf pre)
      /\ exists more, emittedOf (pre ++ rest) = emittedOf pre ++ more)
  /\ (forall txt,
        renderLine {| timestamp := []; text := txt |} = str "[] " ++ txt)
  /\ (forall (A : Type) (mk : jsstring -> jsstring -> A) ms st,
        forallb (fun l => negb (isTextLine l)) ms = true ->
        transcript (fold_left (builderStep mk) ms st) = transcript st
        /\ previousText (fold_left (builderStep mk) ms st) = previousText st
        /\ currentTimestamp (fold_left (builderStep mk) ms st)
           = last (map (fun m => firstn 12 (trim m)) (filter isMarker ms))
               (currentTimestamp st))
  /\ processSubtitles
       (str "hello" ++ [nl] ++ str "00:00:01.000 --> 00:00:03.000" ++ [nl]
        ++ str "00:00:03.000 --> 00:00:05.000" ++ [nl] ++ str "world")
     = str "[] hello" ++ [nl] ++ str "[00:00:03.000] world".
Proof.
  split; [|split; [|split]].
  - intros pre rest H.
    destruct (@builder_before_marker pre (builderInit _) H eq_refl)
      as [H1 H2]; [constructor|].
    split; [exact H1|]. split; [exact H2|].
    unfold emittedOf, builderRun. rewrite fold_left_app.
    apply builder_transcript_grows.
  - reflexivity.
  - intros A mk ms st H.
    destruct (builder_marker_run mk ms st H) as (H1 & H2 & H3).
    split; [exact H1|]. split; [exact H2|]. rewrite H3.
    f_equal. apply map_ext_in. intros m Hm.
    apply marker_start_time. apply filter_In in Hm. apply Hm.
  - vm_compute. reflexivity.
Qed.

Lemma empty_timestamp_and_marker_runs_witness :
  Forall (fun l => timestamp l = [])
    (emittedOf [str "hello"; str "  "; str "there"])
  /\ currentTimestamp
       (fold_left (builderStep render)
          [str "00:00:01.000 --> 00:00:03.000"; [];
           str "00:00:03.000 --> 00:00:05.000 align:start position:0%"]
          (builderInit jsstring))
     = str "00:00:03.000".
Proof.
  split.
  - exact (proj1 (proj2 (proj1 empty_timestamp_and_marker_runs
                           [str "hello"; str "  "; str "there"] []
                           eq_refl))).
  - exact (proj2 (proj2 (proj1 (proj2 (proj2
             empty_timestamp_and_marker_runs))
             jsstring render
             [str "00:00:01.000 --> 00:00:03.000"; [];
              str "00:00:03.000 --> 00:00:05.000 align:start position:0%"]
             (builderInit jsstring) eq_refl))).
Defined.

End MarkerFacts.

(** ** Global replacement *)

Lemma hasGt_cons c t : hasGt (c :: t) = (c =? chr ">")%N || hasGt t.
Proof. reflexivity. Qed.

Lemma hasGt_app a b : hasGt (a ++ b) = hasGt a || hasGt b.
Proof. apply existsb_app. Qed.

Section Replace.

Variable re : matcher.
Variable rep : jsstring.

Lemma replaceAll_no_match s :
  occurs re s = false -> replaceAll re rep s = s.
Proof.
  unfold replaceAll, test.
  induction s as [|c t IH]; cbn [occurs replaceFrom]; unfold test.
  - destruct (re []); [discriminate | reflexivity].
  - intros H. apply orb_false_iff in H as [H1 H2].
    destruct (re (c :: t)); [discriminate|]. now rewrite IH.
Qed.

Lemma occurs_suffix p s : occurs re (p ++ s) = false -> occurs re s = false.
Proof.
  induction p as [|c p IH]; [trivial|].
  cbn [app occurs]. intros H. apply orb_false_iff in H as [_ H]. now apply IH.
Qed.

(** The matcher is that of a pattern that takes at least one code unit. *)
Hypothesis re_nil : re [] = None.
Hypothesis re_pos : forall s, re s <> Some 0.

Lemma replaceFrom_skip p s :
  replaceFrom re rep (length p) (p ++ s) = replaceFrom re rep 0 s.
Proof. induction p as [|c p IH]; [reflexivity | exact IH]. Qed.

Lemma replaceFrom_length skip s :
  (length rep <= 1)%nat ->
  (length (replaceFrom re rep skip s) <= length s)%nat.
Proof.
  intros Hrep. revert skip.
  induction s as [|c t IH]; intros skip; cbn [replaceFrom].
  - rewrite re_nil. destruct skip; cbn; lia.
  - destruct skip as [|k]; [|specialize (IH k); cbn [length]; lia].
    pose proof (re_pos (s := c :: t)) as Hpos.
    destruct (re (c :: t)) as [[|k]|]; [congruence | |].
    + rewrite length_app. specialize (IH k). cbn [length]. lia.
    + specialize (IH 0%nat). cbn [length]. lia.
Qed.

Lemma replaceAll_shorter s :
  rep = [] -> occurs re s = true ->
  (length (replaceAll re rep s) < length s)%nat.
Proof.
  intros Hrep. unfold replaceAll.
  induction s as [|c t IH]; cbn [occurs replaceFrom]; unfold test.
  - now rewrite re_nil.
  - pose proof (re_pos (s := c :: t)) as Hpos.
    destruct (re (c :: t)) as [[|k]|]; [congruence | |]; intros H.
    + pose proof (@replaceFrom_length k t) as Hl. rewrite Hrep in *.
      cbn [app length] in *. lia.
    + cbn [orb] in H. specialize (IH H). cbn [length]. lia.
Qed.

(** What a replacement without [>] leaves has a [>] only where the text
    had one. *)
Lemma replaceFrom_hasGt skip s :
  hasGt rep = false -> hasGt s = false ->
  hasGt (replaceFrom re rep skip s) = false.
Proof.
  intros Hrep. revert skip.
  induction s as [|c t IH]; intros skip H; cbn [replaceFrom].
  - rewrite re_nil. destruct skip; reflexivity.
  - rewrite hasGt_cons in H. apply orb_false_iff in H as [Hc Ht].
    destruct skip as [|k]; [|now apply IH].
    destruct (re (c :: t)) as [[|k]|];
      rewrite ?hasGt_app, ?hasGt_cons, ?Hrep, ?Hc, ?IH; auto.
Qed.

End Replace.

(** ** Tags *)

Section Tags.

Lemma skipn_takeWhile p t : skipn (length (takeWhile p t)) t = dropWhile p t.
Proof.
  induction t as [|c t IH]; [reflexivity|].
  cbn. destruct (p c); [exact IH | reflexivity].
Qed.

Lemma dropWhile_notGt t :
  match dropWhile (fun d => negb (d =? chr ">")%N) t with
  | [] => false
  | _ => true
  end = hasGt t.
Proof.
  induction t as [|c t IH]; [reflexivity|].
  rewrite hasGt_cons. cbn [dropWhile].
  destruct (c =? chr ">")%N; [reflexivity | exact IH].
Qed.

(** [tagRe] matches exactly where a tag opens. *)
Lemma tagRe_test s : test tagRe s = opensTag s.
Proof.
  unfold test, tagRe, opensTag.
  destruct s as [|c [|d t]]; [reflexivity | |].
  - destruct (c =? chr "<")%N; reflexivity.
  - destruct (c =? chr "<")%N; [|reflexivity].
    cbn [takeWhile andb].
    destruct (d =? chr ">")%N; [reflexivity|].
    cbn [negb length skipn andb]. rewrite skipn_takeWhile.
    rewrite <- dropWhile_notGt.
    destruct (dropWhile _ t); reflexivity.
Qed.

Lemma tagRe_nil : tagRe [] = None.
Proof. reflexivity. Qed.

Lemma tagRe_pos s : tagRe s <> Some 0%nat.
Proof.
  unfold tagRe. destruct s as [|c t]; [discriminate|].
  destruct (c =? chr "<")%N; [|discriminate].
  destruct (takeWhile _ t); [discriminate|].
  destruct (skipn _ t); [discriminate|].
  intros H. injection H as H. lia.
Qed.

Lemma tagRe_gt t : tagRe (chr ">" :: t) = None.
Proof. reflexivity. Qed.

Lemma occurs_tag_cons c u :
  occurs tagRe (c :: u) = opensTag (c :: u) || occurs tagRe u.
Proof. cbn [occurs]. now rewrite tagRe_test. Qed.

Lemma opensTag_notLt c u :
  (c =? chr "<")%N = false -> opensTag (c :: u) = false.
Proof.
  intros H. destruct u; cbn [opensTag]; [reflexivity | now rewrite H].
Qed.

Lemma opensTag_noGt c u : hasGt u = false -> opensTag (c :: u) = false.
Proof.
  destruct u as [|d u]; [reflexivity|].
  rewrite hasGt_cons. intros H. apply orb_false_iff in H as [_ H].
  cbn [opensTag]. rewrite H. now rewrite andb_false_r.
Qed.

Lemma tagFree_app_noLt r u :
  noLt r = true -> occurs tagRe u = false -> occurs tagRe (r ++ u) = false.
Proof.
  intros Hr Hu. induction r as [|c r IH]; [exact Hu|].
  cbn [noLt forallb] in Hr. apply andb_true_iff in Hr as [Hc Hr].
  apply negb_true_iff in Hc.
  cbn [app]. rewrite occurs_tag_cons, (opensTag_notLt _ _ Hc).
  now apply IH.
Qed.

Lemma tagFree_prefix v w :
  occurs tagRe (v ++ w) = false -> occurs tagRe v = false.
Proof.
  induction v as [|c v IH]; [reflexivity|].
  cbn [app]. rewrite !occurs_tag_cons. intros H.
  apply orb_false_iff in H as [H1 H2]. rewrite (IH H2), orb_false_r.
  destruct v as [|d v]; [reflexivity|].
  cbn [app opensTag] in *. rewrite hasGt_app in H1.
  destruct ((c =? chr "<")%N && negb (d =? chr ">")%N); [|reflexivity].
  cbn [andb] in *. now apply orb_false_iff in H1 as [H1 _].
Qed.

Section TagFreeReplace.

Variable re : matcher.
Variable rep : jsstring.
Hypothesis re_nil : re [] = None.
Hypothesis re_pos : forall s, re s <> Some 0%nat.
Hypothesis re_gt : forall t, re (chr ">" :: t) = None.
Hypothesis rep_gt : hasGt rep = false.
Hypothesis rep_lt : noLt rep = true.

(** Where no tag opens in the text, none opens in what the replacement
    leaves. *)
Lemma opensTag_replace c t :
  opensTag (c :: t) = false ->
  opensTag (c :: replaceFrom re rep 0 t) = false.
Proof.
  destruct t as [|d t].
  - intros _. cbn [replaceFrom]. now rewrite re_nil.
  - intros H. cbn [opensTag] in H.
    destruct (c =? chr "<")%N eqn:Hc; [|now apply opensTag_notLt].
    destruct (d =? chr ">")%N eqn:Hd.
    + apply N.eqb_eq in Hd. subst d.
      cbn [replaceFrom]. rewrite re_gt. cbn [opensTag].
      rewrite Hc. reflexivity.
    + cbn [negb andb] in H.
      apply opensTag_noGt.
      apply replaceFrom_hasGt; try assumption.
      rewrite hasGt_cons, H. now rewrite Hd.
Qed.

Lemma tagFree_replaceFrom skip s :
  occurs tagRe s = false ->
  occurs tagRe (replaceFrom re rep skip s) = false.
Proof.
  revert skip. induction s as [|c t IH]; intros skip H.
  - cbn [replaceFrom]. rewrite re_nil. destruct skip; reflexivity.
  - rewrite occurs_tag_cons in H. apply orb_false_iff in H as [H1 H2].
    cbn [replaceFrom]. destruct skip as [|k]; [|now apply IH].
    pose proof (re_pos (s := c :: t)) as Hpos.
    destruct (re (c :: t)) as [[|k]|]; [congruence | |].
    + apply tagFree_app_noLt; [exact rep_lt | now apply IH].
    + rewrite occurs_tag_cons, (opensTag_replace _ _ H1). now apply IH.
Qed.

End TagFreeReplace.

(** Once the tags are removed, no tag is left. *)
Lemma tags_removed skip s :
  occurs tagRe (replaceFrom tagRe [] skip s) = false.
Proof.
  revert skip. induction s as [|c t IH]; intros skip.
  - destruct skip; reflexivity.
  - cbn [replaceFrom]. destruct skip as [|k]; [|apply IH].
    pose proof (tagRe_pos (c :: t)) as Hpos.
    pose proof (tagRe_test (c :: t)) as Ht. unfold test in Ht.
    destruct (tagRe (c :: t)) as [[|k]|]; [congruence | apply IH |].
    rewrite occurs_tag_cons, IH, orb_false_r.
    apply opensTag_replace;
      [reflexivity | exact tagRe_gt | reflexivity | now symmetry].
Qed.

End Tags.

(** ** White space *)

Section Spaces.

Lemma spacesRe_nil : spacesRe [] = None.
Proof. reflexivity. Qed.

Lemma spacesRe_pos s : spacesRe s <> Some 0%nat.
Proof.
  unfold spacesRe. destruct (takeWhile isSpace s); discriminate.
Qed.

Lemma spacesRe_gt t : spacesRe (chr ">" :: t) = None.
Proof. reflexivity. Qed.

(** One step of the collapse: a run of white space becomes [rep]. *)
Lemma replaceAll_spaces_cons rep c t :
  replaceAll spacesRe rep (c :: t) =
    if isSpace c
    then rep ++ replaceAll spacesRe rep (dropWhile isSpace t)
    else c :: replaceAll spacesRe rep t.
Proof.
  unfold replaceAll. cbn [replaceFrom]. unfold spacesRe at 1.
  cbn [takeWhile]. destruct (isSpace c); [|reflexivity].
  cbn [length]. f_equal.
  rewrite <- (takeWhile_dropWhile isSpace t) at 2.
  apply replaceFrom_skip.
Qed.

Lemma dropWhile_length p s : (length (dropWhile p s) <= length s)%nat.
Proof.
  induction s as [|c t IH]; [reflexivity|].
  cbn. destruct (p c); cbn; lia.
Qed.

Lemma dropWhile_headNotSpace s : headNotSpace (dropWhile isSpace s) = true.
Proof.
  destruct (dropWhile_head isSpace s) as [-> | (c & t & -> & Hc)];
    [reflexivity|].
  cbn. now rewrite Hc.
Qed.

Lemma replaceAll_spaces_head rep s :
  headNotSpace s = true -> headNotSpace (replaceAll spacesRe rep s) = true.
Proof.
  destruct s as [|c t]; [reflexivity|].
  cbn [headNotSpace]. intros H. apply negb_true_iff in H.
  rewrite replaceAll_spaces_cons, H. cbn. now rewrite H.
Qed.

Lemma wsNormal_cons c t :
  wsNormal (c :: t) =
    (if isSpace c then (c =? chr " ")%N && headNotSpace t else true)
    && wsNormal t.
Proof. destruct t; reflexivity. Qed.

(** Once the runs are collapsed, white space is normal. *)
Lemma spaces_collapsed s : wsNormal (replaceAll spacesRe (str " ") s) = true.
Proof.
  remember (length s) as n eqn:Hn.
  assert (Hle : (length s <= n)%nat) by lia. clear Hn.
  revert s Hle. induction n as [|n IH]; intros s Hle.
  - destruct s; [reflexivity | cbn in Hle; lia].
  - destruct s as [|c t]; [reflexivity|].
    cbn [length] in Hle. rewrite replaceAll_spaces_cons.
    destruct (isSpace c) eqn:Hc.
    + change (str " " ++ ?u) with (chr " " :: u).
      rewrite wsNormal_cons.
      rewrite replaceAll_spaces_head by apply dropWhile_headNotSpace.
      rewrite IH by (pose proof (dropWhile_length isSpace t); lia).
      reflexivity.
    + rewrite wsNormal_cons, Hc. apply IH. lia.
Qed.

Lemma headNotSpace_dropWhile s :
  headNotSpace s = true -> dropWhile isSpace s = s.
Proof.
  destruct s as [|c t]; [reflexivity|].
  cbn. intros H. apply negb_true_iff in H. now rewrite H.
Qed.

(** Where white space is normal, the collapse changes nothing. *)
Lemma spaces_fixed s :
  wsNormal s = true -> replaceAll spacesRe (str " ") s = s.
Proof.
  induction s as [|c t IH]; [reflexivity|].
  rewrite wsNormal_cons, replaceAll_spaces_cons. intros H.
  apply andb_true_iff in H as [H1 H2].
  destruct (isSpace c); [|now rewrite IH].
  apply andb_true_iff in H1 as [Hc Hh]. apply N.eqb_eq in Hc. subst c.
  rewrite headNotSpace_dropWhile by assumption. now rewrite IH.
Qed.

Lemma wsNormal_suffix p s :
  wsNormal s = true -> wsNormal (dropWhile p s) = true.
Proof.
  induction s as [|c t IH]; [reflexivity|].
  intros H. cbn [dropWhile]. destruct (p c); [|assumption].
  rewrite wsNormal_cons in H. apply andb_true_iff in H as [_ H]. now apply IH.
Qed.

Lemma wsNormal_prefix v w : wsNormal (v ++ w) = true -> wsNormal v = true.
Proof.
  induction v as [|c v IH]; [reflexivity|].
  cbn [app]. rewrite !wsNormal_cons. intros H.
  apply andb_true_iff in H as [H1 H2]. rewrite (IH H2), andb_true_r.
  destruct (isSpace c); [|reflexivity].
  apply andb_true_iff in H1 as [Hc Hh]. rewrite Hc.
  destruct v; [reflexivity | exact Hh].
Qed.

Lemma wsNormal_trim s : wsNormal s = true -> wsNormal (trim s) = true.
Proof.
  intros H. unfold trim.
  destruct (trimEnd_spec (trimStart s)) as (ws & Heq & _ & _).
  apply (wsNormal_prefix _ ws). rewrite <- Heq.
  now apply wsNormal_suffix.
Qed.

Lemma tagFree_trim s : occurs tagRe s = false -> occurs tagRe (trim s) = false.
Proof.
  intros H. unfold trim.
  destruct (trimEnd_spec (trimStart s)) as (ws & Heq & _ & _).
  apply (tagFree_prefix _ ws). rewrite <- Heq.
  apply (occurs_suffix tagRe (takeWhile isSpace s)).
  unfold trimStart. now rewrite takeWhile_dropWhile.
Qed.

Lemma trim_length s : (length (trim s) <= length s)%nat.
Proof.
  unfold trim.
  destruct (trimEnd_spec (trimStart s)) as (ws & Heq & _ & _).
  pose proof (dropWhile_length isSpace s) as Hd. fold (trimStart s) in Hd.
  rewrite Heq in Hd at 1. rewrite length_app in Hd. lia.
Qed.

End Spaces.

(** ** The cleaner *)

Section Cleaner.

Lemma alignRe_nil : alignRe [] = None.
Proof. reflexivity. Qed.

Lemma alignRe_pos s : alignRe s <> Some 0%nat.
Proof.
  unfold alignRe, matchAtoms. destruct (matchesAtoms _ s); discriminate.
Qed.

Lemma alignRe_gt t : alignRe (chr ">" :: t) = None.
Proof. reflexivity. Qed.

(** What [cleanText] returns has no tag, only single spaces for white
    space, and none at either end. *)
Lemma cleanText_tagFree x : occurs tagRe (cleanText x) = false.
Proof.
  unfold cleanText. apply tagFree_trim.
  apply (@tagFree_replaceFrom spacesRe (str " ")
           spacesRe_nil spacesRe_pos spacesRe_gt eq_refl eq_refl).
  apply (@tagFree_replaceFrom alignRe []
           alignRe_nil alignRe_pos alignRe_gt eq_refl eq_refl).
  apply tags_removed.
Qed.

Lemma cleanText_wsNormal x : wsNormal (cleanText x) = true.
Proof. unfold cleanText. apply wsNormal_trim, spaces_collapsed. Qed.

Lemma cleanText_trimmed x : trimmed (cleanText x) = true.
Proof. unfold cleanText. apply trim_trimmed. Qed.

(** A text in that form is left as it is, unless it holds the positioning
    token, in which case it gets shorter. *)
Lemma cleanText_fixed y :
  occurs tagRe y = false -> wsNormal y = true -> trimmed y = true ->
  occurs alignRe y = false ->
  cleanText y = y.
Proof.
  intros Ht Hw Hr Ha. unfold cleanText.
  rewrite (replaceAll_no_match tagRe [] y Ht).
  rewrite (replaceAll_no_match alignRe [] y Ha).
  rewrite (spaces_fixed y Hw).
  now apply trimmed_trim_fixed.
Qed.

Lemma cleanText_shorter y :
  occurs tagRe y = false -> occurs alignRe y = true ->
  (length (cleanText y) < length y)%nat.
Proof.
  intros Ht Ha. unfold cleanText.
  rewrite (replaceAll_no_match tagRe [] y Ht).
  pose proof (@replaceAll_shorter alignRe [] alignRe_nil alignRe_pos y
                eq_refl Ha) as H1.
  pose proof (@replaceFrom_length spacesRe (str " ") spacesRe_nil
                spacesRe_pos 0 (replaceAll alignRe [] y)) as H2.
  pose proof (trim_length
                (replaceAll spacesRe (str " ") (replaceAll alignRe [] y)))
    as H3.
  unfold replaceAll in *. cbn [length str] in H2.
  specialize (H2 (le_n 1)). lia.
Qed.

(** C7 as stated fails: collapsing the two spaces brings the positioning
    token into being, and the second cleaning removes it. *)
Lemma cleanText_not_idempotent :
  cleanText (str "align:start  position:0%") = str "align:start position:0%"
  /\ cleanText (cleanText (str "align:start  position:0%")) = []
  /\ cleanText (cleanText (str "align:start  position:0%"))
     <> cleanText (str "align:start  position:0%").
Proof.
  split; [vm_compute; reflexivity|].
  split; [vm_compute; reflexivity|].
  vm_compute. discriminate.
Qed.

(** C7, as the code has it: cleaning a cleaned text changes nothing exactly
    when the cleaned text does not hold the token
    [align:start position:0%]; the cleaned text never holds a tag, a run
    of white space other than one space, or white space at an end. *)
Theorem cleanText_idempotent_without_token (x : jsstring) :
  (cleanText (cleanText x) = cleanText x
   <-> occurs alignRe (cleanText x) = false)
  /\ occurs tagRe (cleanText x) = false
  /\ wsNormal (cleanText x) = true
  /\ trimmed (cleanText x) = true.
Proof.
  pose proof (cleanText_tagFree x) as Ht.
  pose proof (cleanText_wsNormal x) as Hw.
  pose proof (cleanText_trimmed x) as Hr.
  repeat split; try assumption.
  - intros Heq. destruct (occurs alignRe (cleanText x)) eqn:Ha; [|reflexivity].
    pose proof (cleanText_shorter (cleanText x) Ht Ha) as Hlt.
    rewrite Heq in Hlt. lia.
  - intros Ha. now apply cleanText_fixed.
Qed.

End Cleaner.

(** ** The examples of the specification *)

Section Examples.

Example transcript_example :
  processSubtitles
    (str "00:00:01.000 --> 00:00:03.000" ++ [nl] ++ str "Hello world" ++ [nl]
     ++ [nl]
     ++ str "00:00:03.000 --> 00:00:05.000" ++ [nl] ++ str "Hello world"
     ++ [nl] ++ [nl]
     ++ str "00:00:05.000 --> 00:00:07.000" ++ [nl] ++ str "Goodbye" ++ [nl])
  = str "[00:00:01.000] Hello world" ++ [nl] ++ str "[00:00:05.000] Goodbye".
Proof. vm_compute. reflexivity. Qed.

Example chunks_example :
  splitIntoChunks (str "line1" ++ [nl] ++ str "line2" ++ [nl] ++ str "line3") 2
  = [str "line1" ++ [nl] ++ str "line2"; str "line3"].
Proof. vm_compute. reflexivity. Qed.

Example cleanText_example :
  cleanText (str "<00:00:01.500><c> Hello</c>   world align:start position:0%")
  = str "Hello world".
Proof. vm_compute. reflexivity. Qed.

Example response_example :
  formatResponse
    (processSubtitleContent
       (str "00:00:01.000 --> 00:00:03.000" ++ [nl] ++ str "Hello world")
       {| argChunkSize := Some 1%Z; argChunkIndex := None;
          argChunks := Some 9%Z |})
  = Returns
      (str "Configuration:" ++ [nl]
       ++ str "- Chunk size: 5000 words" ++ [nl]
       ++ str "- Starting chunk: 1" ++ [nl]
       ++ str "- Chunks requested: 5" ++ [nl]
       ++ str "- Total available chunks: 1" ++ [nl]
       ++ str "=====================" ++ [nl]
       ++ [nl]
       ++ str "[Chunk 1/1]" ++ [nl]
       ++ str "[00:00:01.000] Hello world" ++ [nl]).
Proof. vm_compute. reflexivity. Qed.

End Examples.

(** ** URL validation: the accepted shape *)

Section UrlFacts.

Lemma stripPrefix_Some p s r : stripPrefix p s = Some r -> s = p ++ r.
Proof.
  revert s. induction p as [|a p IH]; intros s H.
  - cbn in H. now injection H as ->.
  - destruct s as [|b s]; [discriminate|]. cbn in H.
    destruct (N.eqb_spec a b) as [->|]; [|discriminate].
    cbn. f_equal. now apply IH.
Qed.

Lemma stripPrefix_app p s : stripPrefix p (p ++ s) = Some s.
Proof.
  induction p as [|a p IH]; [reflexivity|].
  cbn. now rewrite N.eqb_refl.
Qed.

Lemma matchToEnd_Text p r s :
  matchToEnd (Text p :: r) s = true ->
  exists s', s = p ++ s' /\ matchToEnd r s' = true.
Proof.
  cbn [matchToEnd]. destruct (stripPrefix p s) as [s'|] eqn:E; [|discriminate].
  intros H. exists s'. split; [now apply stripPrefix_Some | exact H].
Qed.

Lemma matchToEnd_Maybe p r s :
  matchToEnd (Maybe p :: r) s = true ->
  (exists s', s = p ++ s' /\ matchToEnd r s' = true)
  \/ matchToEnd r s = true.
Proof.
  cbn [matchToEnd]. destruct (stripPrefix p s) as [s'|] eqn:E.
  - intros H. apply orb_true_iff in H as [H|H]; [left|now right].
    exists s'. split; [now apply stripPrefix_Some | exact H].
  - now right.
Qed.

Lemma matchToEnd_IdChars n s :
  matchToEnd [IdChars n] s = true <->
  length s = n /\ forallb isIdChar s = true.
Proof.
  cbn [matchToEnd]. split.
  - intros H. apply andb_true_iff in H as [H H3].
    apply andb_true_iff in H as [H1 H2]. apply Nat.leb_le in H1.
    assert (Hl : length s = n).
    { destruct (skipn n s) eqn:E; [|discriminate].
      pose proof (length_skipn n s) as Hs. rewrite E in Hs. cbn in Hs. lia. }
    split; [exact Hl|]. rewrite <- Hl in H2. now rewrite firstn_all in H2.
  - intros [Hl Hf]. subst n.
    rewrite Nat.leb_refl, firstn_all, Hf, skipn_all. reflexivity.
Qed.

Lemma matchToEnd_Text_app p r s :
  matchToEnd (Text p :: r) (p ++ s) = matchToEnd r s.
Proof. cbn [matchToEnd]. now rewrite stripPrefix_app. Qed.

Lemma matchToEnd_Maybe_with p r s :
  matchToEnd r s = true -> matchToEnd (Maybe p :: r) (p ++ s) = true.
Proof.
  intros H. cbn [matchToEnd]. rewrite stripPrefix_app, H. reflexivity.
Qed.

Lemma matchToEnd_Maybe_without p r s :
  matchToEnd r s = true -> matchToEnd (Maybe p :: r) s = true.
Proof.
  intros H. cbn [matchToEnd]. rewrite H.
  destruct (stripPrefix p s); [apply orb_true_r | reflexivity].
Qed.

Ltac url_shape scheme host id :=
  exists scheme, host, id;
  split; [cbn; tauto|]; split; [cbn; tauto|];
  split; [assumption|]; split; [assumption | reflexivity].

Lemma isValidYoutubeUrl_sound url :
  isValidYoutubeUrl url = true ->
  exists scheme host id,
    In scheme schemes /\ In host hosts
    /\ length id = 11%nat /\ forallb isIdChar id = true
    /\ url = scheme ++ str "://" ++ host ++ id.
Proof.
  unfold isValidYoutubeUrl, patterns. cbn [existsb].
  rewrite orb_false_r. intros H.
  apply orb_true_iff in H as [H|H]; [|apply orb_true_iff in H as [H|H]];
    apply matchToEnd_Text in H as (s0 & -> & H);
    apply matchToEnd_Maybe in H as [(s1 & -> & H) | H];
    apply matchToEnd_Text in H as (s2 & -> & H);
    try (apply matchToEnd_Maybe in H as [(s3 & -> & H) | H];
         apply matchToEnd_Text in H as (s4 & -> & H));
    apply matchToEnd_IdChars in H as [Hl Hf].
  - url_shape (str "https") (str "www.youtube.com/watch?v=") s4.
  - url_shape (str "https") (str "youtube.com/watch?v=") s4.
  - url_shape (str "http") (str "www.youtube.com/watch?v=") s4.
  - url_shape (str "http") (str "youtube.com/watch?v=") s4.
  - url_shape (str "https") (str "youtu.be/") s2.
  - url_shape (str "http") (str "youtu.be/") s2.
  - url_shape (str "https") (str "www.youtube.com/embed/") s4.
  - url_shape (str "https") (str "youtube.com/embed/") s4.
  - url_shape (str "http") (str "www.youtube.com/embed/") s4.
  - url_shape (str "http") (str "youtube.com/embed/") s4.
Qed.

Lemma isValidYoutubeUrl_complete scheme host id :
  In scheme schemes -> In host hosts ->
  length id = 11%nat -> forallb isIdChar id = true ->
  isValidYoutubeUrl (scheme ++ str "://" ++ host ++ id) = true.
Proof.
  intros Hs Hh Hl Hf.
  assert (Hid : matchToEnd [IdChars 11] id = true)
    by now apply matchToEnd_IdChars.
  (* the three patterns, with or without the optional pieces *)
  assert (Hscheme : forall r rest,
             matchToEnd r (str "://" ++ rest) = true ->
             matchToEnd (Text (str "http") :: Maybe (str "s") :: r)
               (scheme ++ str "://" ++ rest) = true).
  { intros r rest H.
    destruct Hs as [<- | [<- | []]].
    - rewrite matchToEnd_Text_app. now apply matchToEnd_Maybe_without.
    - change (str "https" ++ ?x) with (str "http" ++ str "s" ++ x).
      rewrite matchToEnd_Text_app. now apply matchToEnd_Maybe_with. }
  unfold isValidYoutubeUrl, patterns. cbn [existsb].
  destruct Hh as [<- | [<- | [<- | [<- | [<- | []]]]]].
  - rewrite Hscheme; [reflexivity|].
    rewrite matchToEnd_Text_app. apply matchToEnd_Maybe_without.
    now rewrite matchToEnd_Text_app.
  - rewrite Hscheme; [reflexivity|].
    rewrite matchToEnd_Text_app.
    change (str "www.youtube.com/watch?v=" ++ id)
      with (str "www." ++ str "youtube.com/watch?v=" ++ id).
    apply matchToEnd_Maybe_with. now rewrite matchToEnd_Text_app.
  - apply orb_true_iff. right. rewrite Hscheme; [reflexivity|].
    change (str "://" ++ str "youtu.be/" ++ id)
      with (str "://youtu.be/" ++ id).
    now rewrite matchToEnd_Text_app.
  - apply orb_true_iff. right. apply orb_true_iff. right.
    rewrite Hscheme; [reflexivity|].
    rewrite matchToEnd_Text_app. apply matchToEnd_Maybe_without.
    now rewrite matchToEnd_Text_app.
  - apply orb_true_iff. right. apply orb_true_iff. right.
    rewrite Hscheme; [reflexivity|].
    rewrite matchToEnd_Text_app.
    change (str "www.youtube.com/embed/" ++ id)
      with (str "www." ++ str "youtube.com/embed/" ++ id).
    apply matchToEnd_Maybe_with. now rewrite matchToEnd_Text_app.
Qed.

(** X1: a URL is accepted exactly when it is [http] or [https], [://], one
    of the five host-and-path texts and an identifier of eleven code units
    of [[A-Za-z0-9_-]], with nothing before or after. *)
Theorem isValidYoutubeUrl_shape (url : jsstring) :
  isValidYoutubeUrl url = true <->
  exists scheme host id,
    In scheme schemes /\ In host hosts
    /\ length id = 11%nat /\ forallb isIdChar id = true
    /\ url = scheme ++ str "://" ++ host ++ id.
Proof.
  split; [apply isValidYoutubeUrl_sound|].
  intros (scheme & host & id & Hs & Hh & Hl & Hf & ->).
  now apply isValidYoutubeUrl_complete.
Qed.

Lemma isIdChar_url c : isIdChar c = true -> isUrlChar c = true.
Proof. unfold isUrlChar. now intros ->. Qed.

Lemma isUrlChar_not_space c : isUrlChar c = true -> isSpace c = false.
Proof.
  unfold isUrlChar, isIdChar, isWordChar, isSpace. cbn [existsb str map
    list_ascii_of_string N_of_ascii N_of_digits].
  intros H. apply orb_false_iff.
  repeat match type of H with
         | (_ || _) = true => apply orb_true_iff in H as [H|H]
         | (_ && _) = true => apply andb_true_iff in H as [? H]
         end;
    repeat match goal with
           | H : (_ <=? _)%N = true |- _ => apply N.leb_le in H
           | H : (_ =? _)%N = true |- _ => apply N.eqb_eq in H
           end;
    try discriminate;
    (split;
     [ repeat (apply orb_false_iff; split); try reflexivity;
       apply N.eqb_neq; cbn in *; lia
     | apply andb_false_iff; left; apply N.leb_gt; cbn in *; lia ]).
Qed.

(** X2: an accepted URL starts with [http], has between 27 and 43 code
    units, and holds only letters, digits and [_ - : / . ? =]; so it holds
    no white space and does not start with [-]. *)
Theorem isValidYoutubeUrl_alphabet (url : jsstring) :
  isValidYoutubeUrl url = true ->
  isPrefix (str "http") url = true
  /\ (27 <= length url <= 43)%nat
  /\ forallb isUrlChar url = true
  /\ forallb (fun c => negb (isSpace c)) url = true.
Proof.
  intros H.
  assert (Hu : isPrefix (str "http") url = true
               /\ (27 <= length url <= 43)%nat
               /\ forallb isUrlChar url = true).
  { apply isValidYoutubeUrl_sound in H
      as (scheme & host & id & Hs & Hh & Hl & Hf & ->).
    assert (Hid : forallb isUrlChar id = true).
    { rewrite forallb_forall in *. intros c Hc.
      apply isIdChar_url, Hf, Hc. }
    destruct Hs as [<- | [<- | []]];
      destruct Hh as [<- | [<- | [<- | [<- | [<- | []]]]]];
      (split; [reflexivity|]);
      (split; [rewrite !length_app, Hl; cbn; lia|]);
      rewrite !forallb_app, Hid; reflexivity. }
  destruct Hu as (H1 & H2 & H3). repeat split; try assumption; try lia.
  rewrite forallb_forall in *. intros c Hc.
  apply negb_true_iff, isUrlChar_not_space, H3, Hc.
Qed.

Lemma isValidYoutubeUrl_alphabet_witness :
  forallb isUrlChar (str "https://www.youtube.com/watch?v=8hQG7QlcLBk") = true.
Proof.
  exact (proj1 (proj2 (proj2
           (isValidYoutubeUrl_alphabet
              (str "https://www.youtube.com/watch?v=8hQG7QlcLBk")
              eq_refl)))).
Defined.

End UrlFacts.

(** ** The cleaner: length and fixed points *)

Section CleanerMore.

(** X3: cleaning never makes a text longer. *)
Theorem cleanText_length (x : jsstring) :
  (length (cleanText x) <= length x)%nat.
Proof.
  unfold cleanText, replaceAll.
  pose proof (@replaceFrom_length tagRe [] tagRe_nil tagRe_pos 0 x
                (Nat.le_0_l 1)) as H1.
  pose proof (@replaceFrom_length alignRe [] alignRe_nil alignRe_pos 0
                (replaceFrom tagRe [] 0 x) (Nat.le_0_l 1)) as H2.
  pose proof (@replaceFrom_length spacesRe (str " ") spacesRe_nil
                spacesRe_pos 0
                (replaceFrom alignRe [] 0 (replaceFrom tagRe [] 0 x))
                (le_n 1)) as H3.
  pose proof (trim_length
                (replaceFrom spacesRe (str " ") 0
                   (replaceFrom alignRe [] 0 (replaceFrom tagRe [] 0 x))))
    as H4.
  lia.
Qed.

(** X4: the texts that cleaning leaves as they are, are exactly those in
    clean form: without tag, without the positioning token, with single
    spaces for white space and none at either end. *)
Theorem cleanText_fixed_points (y : jsstring) :
  cleanText y = y <-> cleanForm y = true.
Proof.
  unfold cleanForm. split.
  - intros Heq.
    pose proof (cleanText_tagFree y) as Ht.
    pose proof (cleanText_wsNormal y) as Hw.
    pose proof (cleanText_trimmed y) as Hr.
    rewrite Heq in Ht, Hw, Hr. rewrite Ht, Hw, Hr.
    destruct (occurs alignRe y) eqn:Ha; [|reflexivity].
    pose proof (cleanText_shorter y Ht Ha) as Hlt. rewrite Heq in Hlt. lia.
  - intros H. apply andb_true_iff in H as [H Hr].
    apply andb_true_iff in H as [H Hw].
    apply andb_true_iff in H as [Ht Ha].
    apply negb_true_iff in Ht, Ha. now apply cleanText_fixed.
Qed.

End CleanerMore.

(** ** The transcript: what is emitted *)

Section TranscriptMore.

Lemma emittedOf_snoc lines line :
  emittedOf (lines ++ [line]) = emittedOf lines
  \/ (emittedOf (lines ++ [line])
      = emittedOf lines
          ++ [{| timestamp :=
                   currentTimestamp (builderRun Build_TranscriptLine lines);
                 text := cleanText (trim line) |}]
      /\ isTextLine line = true
      /\ cleanText (trim line) <> []).
Proof.
  unfold emittedOf. rewrite builderRun_snoc, builderStep_cases.
  destruct (isMarker line); [now left|].
  destruct (isTextLine line) eqn:Ht; [|now left].
  destruct (eqbStr (cleanText (trim line)) []) eqn:Hn; [now left|].
  cbn [negb andb].
  destruct (eqbStr _ (previousText _)); [now left|].
  right. repeat split. now apply eqbStr_neq.
Qed.

Lemma emitted_texts_origin (content : jsstring) :
  Forall (fun l =>
            text l <> []
            /\ exists line,
                 In line (splitLines content) /\ isTextLine line = true
                 /\ text l = cleanText (trim line))
    (emitted content).
Proof.
  unfold emitted. change (transcript (builderRun _ ?ls)) with (emittedOf ls).
  induction (splitLines content) as [|line lines IH] using rev_ind;
    [constructor|].
  assert (IH' : Forall (fun l =>
            text l <> []
            /\ exists line0,
                 In line0 (lines ++ [line]) /\ isTextLine line0 = true
                 /\ text l = cleanText (trim line0))
            (emittedOf lines)).
  { eapply Forall_impl; [|exact IH]. cbn beta.
    intros l (Hne & line0 & Hin & Ht & Heq). split; [exact Hne|].
    exists line0. split; [apply in_or_app; now left | now split]. }
  destruct (emittedOf_snoc lines line) as [-> | (-> & Ht & Hne)];
    [exact IH'|].
  apply Forall_app. split; [exact IH'|]. repeat constructor; [exact Hne|].
  exists line. split; [apply in_or_app; right; now left | now split].
Qed.

(** X5: every emitted text is the cleaned form of a text line of the
    input, and is never empty: the transcript invents no text. *)
Theorem emitted_texts_from_lines (content : jsstring) :
  Forall (fun l =>
            text l <> []
            /\ exists line,
                 In line (splitLines content) /\ isTextLine line = true
                 /\ text l = cleanText (trim line))
    (emitted content).
Proof. apply emitted_texts_origin. Qed.

Lemma matchesAtoms_app_firstn p q s :
  matchesAtoms (p ++ q) s = true ->
  matchesAtoms p (firstn (length p) s) = true
  /\ length (firstn (length p) s) = length p.
Proof.
  revert s. induction p as [|a p IH]; intros s H; [now split|].
  destruct s as [|c s]; [discriminate|].
  cbn [app matchesAtoms] in H. apply andb_true_iff in H as [Ha H].
  destruct (IH s H) as [H1 H2].
  cbn [length firstn matchesAtoms]. rewrite Ha, H1, H2. now split.
Qed.

Lemma marker_clockShape line :
  isMarker line = true -> clockShape (startTime line) = true.
Proof.
  unfold isMarker, startTime. intros H.
  rewrite (marker_start_time _ H).
  unfold test, TIMESTAMP_REGEX, matchAtoms in H.
  destruct (matchesAtoms _ (trim line)) eqn:E; [|discriminate].
  apply matchesAtoms_app_firstn in E as [E1 E2].
  unfold clockShape. change 12%nat with (length clock).
  rewrite E1, E2. apply Nat.eqb_refl.
Qed.

Lemma builder_stamps_ok lines st :
  stampOk (currentTimestamp st) = true ->
  Forall (fun l => stampOk (timestamp l) = true) (transcript st) ->
  stampOk (currentTimestamp
             (fold_left (builderStep Build_TranscriptLine) lines st)) = true
  /\ Forall (fun l => stampOk (timestamp l) = true)
       (transcript (fold_left (builderStep Build_TranscriptLine) lines st)).
Proof.
  revert st. induction lines as [|l r IH]; intros st Hc Ht; [now split|].
  cbn [fold_left]. apply IH; rewrite builderStep_cases;
    destruct (isMarker l) eqn:Hm; cbn [currentTimestamp transcript];
    try assumption;
    try (destruct (isTextLine l && _ && _);
         cbn [currentTimestamp transcript]; try assumption).
  - unfold stampOk. fold (startTime l). rewrite (marker_clockShape l Hm).
    apply orb_true_r.
  - apply Forall_app. split; [assumption|]. repeat constructor. exact Hc.
Qed.

(** X6: the time stamp of every emitted line is the empty string or a
    start time of the form dd:dd:dd.ddd, twelve code units long. *)
Theorem emitted_timestamps_shape (content : jsstring) :
  Forall (fun l =>
            timestamp l = []
            \/ (length (timestamp l) = 12%nat
                /\ matchesAtoms clock (timestamp l) = true))
    (emitted content).
Proof.
  destruct (@builder_stamps_ok (splitLines content) (builderInit _)
              eq_refl (Forall_nil _)) as [_ H].
  eapply Forall_impl; [|exact H]. cbn beta. intros l Hl.
  unfold stampOk, clockShape in Hl.
  apply orb_true_iff in Hl as [Hl|Hl].
  - left. now apply eqbStr_eq.
  - right. apply andb_true_iff in Hl as [H1 H2].
    split; [now apply Nat.eqb_eq | exact H1].
Qed.

End TranscriptMore.

(** ** The transcript as the input of the chunker *)

Section TranscriptLines.

Lemma wsNormal_noNl s : wsNormal s = true -> noNl s = true.
Proof.
  induction s as [|c t IH]; [reflexivity|].
  rewrite wsNormal_cons. intros H. apply andb_true_iff in H as [H1 H2].
  cbn [noNl forallb]. fold (noNl t). rewrite (IH H2), andb_true_r.
  destruct (N.eqb_spec c nl) as [->|]; [|reflexivity].
  discriminate H1.
Qed.

Lemma digit_not_nl c : isDigit c = true -> (c =? nl)%N = false.
Proof.
  unfold isDigit. intros H. apply andb_true_iff in H as [H _].
  apply N.leb_le in H. apply N.eqb_neq. unfold nl. lia.
Qed.

Lemma matchesAtoms_noNl p s :
  forallb atomNotNl p = true -> matchesAtoms p s = true ->
  length s = length p -> noNl s = true.
Proof.
  revert s. induction p as [|a p IH]; intros s Hp Hm Hl.
  - destruct s; [reflexivity | discriminate].
  - destruct s as [|c s]; [discriminate|].
    cbn [forallb matchesAtoms length] in *.
    apply andb_true_iff in Hp as [Ha Hp]. apply andb_true_iff in Hm as [Hc Hm].
    cbn [noNl forallb]. fold (noNl s).
    rewrite (IH s Hp Hm) by lia. rewrite andb_true_r.
    destruct a as [d|]; cbn [atomOk atomNotNl] in *.
    + apply N.eqb_eq in Hc. subst c. exact Ha.
    + apply negb_true_iff. now apply digit_not_nl.
Qed.

Lemma stampOk_noNl ts : stampOk ts = true -> noNl ts = true.
Proof.
  unfold stampOk, clockShape. intros H. apply orb_true_iff in H as [H|H].
  - apply eqbStr_eq in H. now subst.
  - apply andb_true_iff in H as [H1 H2]. apply Nat.eqb_eq in H2.
    now apply (matchesAtoms_noNl clock).
Qed.

Lemma render_noNl ts txt :
  noNl ts = true -> noNl txt = true -> noNl (render ts txt) = true.
Proof.
  intros H1 H2. unfold render, noNl in *.
  rewrite !forallb_app.
  repeat (apply andb_true_iff; split); try assumption; reflexivity.
Qed.

Lemma emitted_noNl content :
  Forall (fun l => noNl l = true) (map renderLine (emitted content)).
Proof.
  apply Forall_map.
  destruct (@builder_stamps_ok (splitLines content) (builderInit _)
              eq_refl (Forall_nil _)) as [_ Hs].
  pose proof (emitted_texts_origin content) as Ht.
  eapply Forall_impl; [|exact (Forall_and Hs Ht)]. cbn beta.
  intros l (Hl & _ & line & _ & _ & Heq).
  apply render_noNl; [now apply stampOk_noNl|].
  rewrite Heq. apply wsNormal_noNl, cleanText_wsNormal.
Qed.

Lemma splitLines_processSubtitles (content : jsstring) :
  splitLines (processSubtitles content) =
    match emitted content with
    | [] => [[]]
    | _ => map renderLine (emitted content)
    end.
Proof.
  rewrite processSubtitles_emitted.
  pose proof (emitted_noNl content) as H.
  destruct (emitted content) as [|l r] eqn:E; [reflexivity|].
  apply splitLines_join; [discriminate | exact H].
Qed.

(** X7: the lines of the transcript, as the chunker splits it, are exactly
    the rendered emitted lines, one line each; a transcript without
    emitted line is the empty string, which the chunker reads as one empty
    line. *)
Theorem transcript_lines (content : jsstring) :
  splitLines (processSubtitles content) =
    match emitted content with
    | [] => [[]]
    | _ => map renderLine (emitted content)
    end.
Proof. apply splitLines_processSubtitles. Qed.

End TranscriptLines.

(** ** Inputs without text, and line endings *)

Section TranscriptEdges.

Lemma builderStep_silent (A : Type) (mk : jsstring -> jsstring -> A) st line :
  silentLine line = true ->
  transcript (builderStep mk st line) = transcript st
  /\ previousText (builderStep mk st line) = previousText st.
Proof.
  unfold silentLine. intros H. rewrite builderStep_cases.
  destruct (isMarker line); [now split|].
  destruct (isTextLine line); cbn [negb orb andb] in *; [|now split].
  rewrite H. now split.
Qed.

Lemma builderStep_first (A : Type) (mk : jsstring -> jsstring -> A) st line :
  silentLine line = false -> previousText st = [] ->
  transcript (builderStep mk st line)
  = transcript st ++ [mk (currentTimestamp st) (cleanText (trim line))].
Proof.
  unfold silentLine. intros H Hp. apply orb_false_iff in H as [Ht Hn].
  apply negb_false_iff in Ht. rewrite builderStep_cases.
  unfold isTextLine in Ht. apply andb_true_iff in Ht as [Hb Hm].
  apply negb_true_iff in Hm. rewrite Hm.
  unfold isTextLine. rewrite Hb, Hm, Hp, Hn. reflexivity.
Qed.

Lemma builder_silent_or_not (A : Type) (mk : jsstring -> jsstring -> A)
    lines st :
  transcript st = [] -> previousText st = [] ->
  if forallb silentLine lines
  then transcript (fold_left (builderStep mk) lines st) = []
  else transcript (fold_left (builderStep mk) lines st) <> [].
Proof.
  revert st. induction lines as [|l r IH]; intros st Ht Hp; [exact Ht|].
  cbn [forallb fold_left]. destruct (silentLine l) eqn:Hl.
  - destruct (builderStep_silent mk st l Hl) as [H1 H2].
    cbn [andb]. apply IH; congruence.
  - cbn [andb].
    destruct (builder_transcript_grows mk r (builderStep mk st l))
      as [more ->].
    rewrite (builderStep_first mk st l Hl Hp), Ht. discriminate.
Qed.

Lemma join_nil_head sep x r : join sep (x :: r) = [] -> x = [].
Proof.
  destruct r; cbn; [trivial|]. intros H. now apply app_eq_nil in H.
Qed.

Lemma render_not_nil ts txt : render ts txt <> [].
Proof. discriminate. Qed.

(** X8: the transcript is the empty string exactly when every line of the
    input is blank, a marker, or a text line whose cleaned text is empty. *)
Theorem processSubtitles_empty_iff (content : jsstring) :
  processSubtitles content = [] <->
  forallb silentLine (splitLines content) = true.
Proof.
  rewrite processSubtitles_emitted. unfold emitted, builderRun.
  pose proof (@builder_silent_or_not _ Build_TranscriptLine
                (splitLines content) (builderInit _) eq_refl eq_refl) as H.
  destruct (forallb silentLine (splitLines content)).
  - rewrite H. now split.
  - split; [|discriminate]. intros Hj.
    destruct (transcript _) as [|x r]; [congruence|].
    cbn [map] in Hj. apply join_nil_head in Hj.
    now apply render_not_nil in Hj.
Qed.

End TranscriptEdges.

Section LineEndings.

Lemma dropWhile_app_all p a b :
  forallb p a = true -> dropWhile p (a ++ b) = dropWhile p b.
Proof.
  induction a as [|c a IH]; [reflexivity|].
  cbn. intros H. apply andb_true_iff in H as [Hc Ha]. now rewrite Hc, IH.
Qed.

Lemma dropWhile_app_keep p a b :
  dropWhile p a <> [] -> dropWhile p (a ++ b) = dropWhile p a ++ b.
Proof.
  induction a as [|c a IH]; intros H; [now elim H|].
  cbn in *. destruct (p c); [exact (IH H) | reflexivity].
Qed.

Lemma trimEnd_app_blank u ws :
  forallb isSpace ws = true -> trimEnd (u ++ ws) = trimEnd u.
Proof.
  intros H. unfold trimEnd. rewrite rev_app_distr.
  now rewrite dropWhile_app_all by now apply forallb_rev.
Qed.

(** White space at the end of a line does not count. *)
Lemma trim_app_blank l ws :
  forallb isSpace ws = true -> trim (l ++ ws) = trim l.
Proof.
  intros H. unfold trim, trimStart.
  destruct (dropWhile isSpace l) as [|c t] eqn:E.
  - assert (Hl : forallb isSpace l = true).
    { rewrite <- (takeWhile_dropWhile isSpace l), E, app_nil_r.
      apply takeWhile_all. }
    rewrite dropWhile_app_all by exact Hl.
    now rewrite (dropWhile_all _ _ H).
  - rewrite dropWhile_app_keep by (rewrite E; discriminate).
    rewrite E. now apply trimEnd_app_blank.
Qed.

(** The loop reads a line through its trimmed form only. *)
Lemma builderStep_trim (A : Type) (mk : jsstring -> jsstring -> A) st l l' :
  trim l' = trim l -> builderStep mk st l' = builderStep mk st l.
Proof. intros H. unfold builderStep. now rewrite H. Qed.

Lemma builderRun_trim (A : Type) (mk : jsstring -> jsstring -> A) ls ls' :
  map trim ls' = map trim ls -> builderRun mk ls' = builderRun mk ls.
Proof.
  unfold builderRun. generalize (builderInit A). revert ls'.
  induction ls as [|l ls IH]; intros ls' st H.
  - destruct ls'; [reflexivity | discriminate].
  - destruct ls' as [|l' ls']; [discriminate|].
    cbn [map] in H. injection H as Hl Hr.
    cbn [fold_left]. rewrite (builderStep_trim mk st l l' Hl).
    now apply IH.
Qed.

Lemma splitLines_cons c t :
  splitLines (c :: t) =
    if (c =? nl)%N then [] :: splitLines t
    else (c :: hd [] (splitLines t)) :: tl (splitLines t).
Proof.
  cbn [splitLines]. destruct (c =? nl)%N; [reflexivity|].
  pose proof (splitLines_not_nil t). now destruct (splitLines t).
Qed.

Lemma splitLines_toCRLF s :
  map trim (splitLines (toCRLF s)) = map trim (splitLines s)
  /\ (hd [] (splitLines (toCRLF s)) = hd [] (splitLines s)
      \/ hd [] (splitLines (toCRLF s)) = hd [] (splitLines s) ++ [cr]).
Proof.
  induction s as [|c t [IH1 IH2]]; [now split; [|left]|].
  unfold toCRLF in *. cbn [flat_map]. fold (toCRLF t) in *.
  destruct (N.eqb_spec c nl) as [->|Hc].
  - cbn [app]. rewrite (splitLines_cons cr), (splitLines_cons nl).
    rewrite (splitLines_cons nl t).
    change (cr =? nl)%N with false. rewrite N.eqb_refl.
    cbn [hd tl map]. rewrite IH1. split; [reflexivity | now right].
  - apply N.eqb_neq in Hc. cbn [app].
    rewrite (splitLines_cons c), (splitLines_cons c t), Hc.
    pose proof (splitLines_not_nil t) as Hn.
    pose proof (splitLines_not_nil (toCRLF t)) as Hn'.
    destruct (splitLines t) as [|h r]; [congruence|].
    destruct (splitLines (toCRLF t)) as [|h' r']; [congruence|].
    cbn [hd tl map] in *. injection IH1 as _ Hr. rewrite Hr.
    destruct IH2 as [-> | ->].
    + split; [reflexivity | now left].
    + split; [|now right].
      f_equal. change (c :: h ++ [cr]) with ((c :: h) ++ [cr]).
      now apply trim_app_blank.
Qed.

(** X9: carriage returns before the newlines make no difference: a file
    with CRLF line ends gives the transcript of the same file with LF line
    ends. *)
Theorem processSubtitles_crlf (content : jsstring) :
  processSubtitles (toCRLF content) = processSubtitles content.
Proof.
  unfold processSubtitles.
  now rewrite (builderRun_trim render _ _ (proj1 (splitLines_toCRLF content))).
Qed.

End LineEndings.

(** ** The chunker: how many chunks *)

Section ChunkCount.

Variable w : Z.

Local Abbreviation idc := (fun g : list jsstring => g).

Lemma sumWords_nonneg g : (0 <= sumWords countWords g)%Z.
Proof.
  induction g as [|l g IH]; cbn; [lia|].
  pose proof (countWords_pos l). unfold sumWords in IH. lia.
Qed.

Lemma sumWords_app count a b :
  sumWords count (a ++ b) = (sumWords count a + sumWords count b)%Z.
Proof.
  induction a as [|x a IH]; cbn; [reflexivity|].
  unfold sumWords in *. rewrite IH. lia.
Qed.

(** As long as the words fit, the lines gather in the chunk under way. *)
Lemma chunker_fits ls cur :
  (sumWords countWords (cur ++ ls) <= w)%Z ->
  fold_left (chunkerStep idc w) ls
    {| chunks := []; currentChunk := cur;
       currentWordCount := sumWords countWords cur |}
  = {| chunks := []; currentChunk := cur ++ ls;
       currentWordCount := sumWords countWords (cur ++ ls) |}.
Proof.
  revert cur. induction ls as [|l ls IH]; intros cur H.
  - now rewrite app_nil_r.
  - cbn [fold_left]. unfold chunkerStep at 2.
    cbn [chunks currentChunk currentWordCount].
    rewrite sumWords_app in H. cbn [sumWords fold_right] in H.
    fold (sumWords countWords ls) in H.
    pose proof (sumWords_nonneg ls) as Hls.
    destruct (Z.gtb_spec (sumWords countWords cur + countWords l) w)
      as [Hgt|Hle]; [lia|].
    cbn [andb chunks currentChunk currentWordCount].
    rewrite <- sumWords_snoc.
    replace (cur ++ l :: ls) with ((cur ++ [l]) ++ ls)
      by now rewrite <- app_assoc.
    apply IH. rewrite sumWords_app, sumWords_snoc. lia.
Qed.

Lemma chunkLinesOf_fits lines :
  lines <> [] -> (sumWords countWords lines <= w)%Z ->
  chunkLinesOf w lines = [lines].
Proof.
  intros Hne H. unfold chunkLinesOf, chunkerRun, chunkerInit.
  change 0%Z with (sumWords countWords []).
  rewrite (chunker_fits lines [] H). cbn [app].
  unfold chunkerFinish. cbn [currentChunk chunks].
  destruct lines; [congruence | reflexivity].
Qed.

(** Below a limit of 1 every line closes the chunk before it. *)
Lemma chunker_splits ls done l :
  (w < 1)%Z ->
  chunkerFinish idc
    (fold_left (chunkerStep idc w) ls
       {| chunks := done; currentChunk := [l];
          currentWordCount := countWords l |})
  = done ++ map (fun x => [x]) (l :: ls).
Proof.
  intros Hw. revert done l. induction ls as [|l' ls IH]; intros done l.
  - reflexivity.
  - cbn [fold_left]. unfold chunkerStep at 2.
    cbn [chunks currentChunk currentWordCount nonEmpty].
    pose proof (countWords_pos l). pose proof (countWords_pos l').
    destruct (Z.gtb_spec (countWords l + countWords l') w) as [_|Hle];
      [|lia].
    cbn [andb chunks currentChunk currentWordCount app].
    change (0 + countWords l')%Z with (countWords l').
    rewrite IH. now rewrite <- app_assoc.
Qed.

Lemma chunkLinesOf_splits lines :
  (w < 1)%Z -> chunkLinesOf w lines = map (fun x => [x]) lines.
Proof.
  intros Hw. destruct lines as [|l ls]; [reflexivity|].
  unfold chunkLinesOf, chunkerRun. cbn [fold_left].
  unfold chunkerStep at 2.
  cbn [chunkerInit chunks currentChunk currentWordCount nonEmpty].
  rewrite andb_false_r. exact (chunker_splits ls [] l Hw).
Qed.

Lemma concat_length_nonempty (gs : list (list jsstring)) :
  Forall (fun g => g <> []) gs -> (length gs <= length (concat gs))%nat.
Proof.
  induction 1 as [|g gs Hg _ IH]; [reflexivity|].
  cbn [concat length]. rewrite length_app.
  destruct g; [congruence | cbn [length]; lia].
Qed.

End ChunkCount.

Section ChunkCountTheorems.

Lemma join_single_lines (ls : list jsstring) :
  map (join [nl]) (map (fun x => [x]) ls) = ls.
Proof. induction ls as [|l ls IH]; [reflexivity | cbn; now rewrite IH]. Qed.

(** X10: a text is returned as one chunk exactly when its words fit in the
    limit or it is a single line. *)
Theorem splitIntoChunks_one_chunk (text : jsstring) (w : Z) :
  splitIntoChunks text w = [text]
  <-> ((totalWords text <= w)%Z \/ length (splitLines text) = 1%nat).
Proof.
  unfold totalWords. rewrite splitIntoChunks_chunkLines.
  pose proof (chunkLinesOf_concat w (splitLines text)) as Hcat.
  pose proof (proj1 (chunkLinesOf_limit w (splitLines text))) as Hlim.
  pose proof (splitLines_not_nil text) as Hne.
  unfold chunkLines. fold (chunkLinesOf w (splitLines text)).
  split.
  - intros H.
    destruct (chunkLinesOf w (splitLines text)) as [|g [|g' gs]];
      [discriminate | | discriminate].
    cbn [concat] in Hcat. rewrite app_nil_r in Hcat. subst g.
    cbn [forallb] in Hlim. rewrite andb_true_r in Hlim.
    unfold withinLimit in Hlim. apply orb_true_iff in Hlim as [Hl|Hl].
    + left. now apply Z.leb_le.
    + right. destruct (splitLines text) as [|l [|l' r]];
        [congruence | reflexivity | discriminate].
  - intros [H|H].
    + rewrite (chunkLinesOf_fits Hne H). cbn [map].
      now rewrite join_splitLines.
    + destruct (splitLines text) as [|l [|l' r]] eqn:E; try discriminate.
      assert (Hj : join [nl] (splitLines text) = text)
        by apply join_splitLines.
      rewrite E in Hj. cbn in Hj. subst l.
      unfold chunkLinesOf, chunkerRun, chunkerStep, chunkerFinish.
      cbn [fold_left chunkerInit chunks currentChunk currentWordCount
           nonEmpty].
      rewrite andb_false_r. reflexivity.
Qed.

(** X11: with a limit below 1 every line is a chunk of its own. *)
Theorem splitIntoChunks_limit_below_one (text : jsstring) (w : Z) :
  (w < 1)%Z -> splitIntoChunks text w = splitLines text.
Proof.
  intros Hw. rewrite splitIntoChunks_chunkLines.
  unfold chunkLines. fold (chunkLinesOf w (splitLines text)).
  rewrite (chunkLinesOf_splits (splitLines text) Hw).
  apply join_single_lines.
Qed.

Lemma splitIntoChunks_limit_below_one_witness :
  splitIntoChunks (str "a b" ++ [nl] ++ str "c") 0 = [str "a b"; str "c"].
Proof.
  exact (splitIntoChunks_limit_below_one (str "a b" ++ [nl] ++ str "c")
           (w := 0) eq_refl).
Defined.

(** X12: there is at least one chunk and never more chunks than lines. *)
Theorem splitIntoChunks_count (text : jsstring) (w : Z) :
  (1 <= length (splitIntoChunks text w) <= length (splitLines text))%nat.
Proof.
  rewrite splitIntoChunks_chunkLines, length_map.
  pose proof (chunkLinesOf_concat w (splitLines text)) as Hcat.
  pose proof (chunkLinesOf_nonempty w (splitLines text)) as Hne.
  pose proof (splitLines_not_nil text) as Hn.
  unfold chunkLines. fold (chunkLinesOf w (splitLines text)).
  apply concat_length_nonempty in Hne. rewrite Hcat in Hne.
  split; [|exact Hne].
  destruct (chunkLinesOf w (splitLines text)); [|cbn; lia].
  cbn in Hcat. congruence.
Qed.

End ChunkCountTheorems.

(** ** The response: which chunks are shown *)

Section Selection.

Lemma formatResponse_valid (p : ProcessedContent) :
  (0 <= chunkIndex (config p) < totalChunks p)%Z ->
  formatResponse p
  = Returns (responseHeader p ++ responseBody p (selectedChunks p)).
Proof.
  intros [H1 H2]. unfold formatResponse.
  replace ((chunkIndex (config p) <? 0)
           || (chunkIndex (config p) >=? totalChunks p))%Z with false.
  - unfold responseHeader, responseBody, selectedChunks, chunkBlock.
    f_equal. now rewrite <- !app_assoc.
  - symmetry. apply orb_false_iff. split; [now apply Z.ltb_ge|].
    rewrite Z.geb_leb. now apply Z.leb_gt.
Qed.

Lemma slice_forward (A : Type) (a : list A) (i n : Z) :
  (0 <= i <= Z.of_nat (length a))%Z -> (0 <= n)%Z ->
  slice a i (Z.min (i + n) (Z.of_nat (length a)))
  = firstn (Z.to_nat (Z.min n (Z.of_nat (length a) - i)))
      (skipn (Z.to_nat i) a).
Proof.
  intros Hi Hn. unfold slice.
  destruct (Z.ltb_spec i 0); [lia|].
  destruct (Z.ltb_spec (Z.min (i + n) (Z.of_nat (length a))) 0); [lia|].
  rewrite (Z.min_l i) by lia. f_equal. lia.
Qed.

Lemma slice_backward (A : Type) (a : list A) (i n : Z) :
  (0 <= i <= Z.of_nat (length a))%Z -> (n < 0)%Z ->
  slice a i (Z.min (i + n) (Z.of_nat (length a)))
  = if (0 <=? i + n)%Z then []
    else firstn (Z.to_nat (Z.of_nat (length a) + n)) (skipn (Z.to_nat i) a).
Proof.
  intros Hi Hn. unfold slice.
  destruct (Z.ltb_spec i 0); [lia|].
  rewrite (Z.min_l i) by lia. rewrite (Z.min_l (i + n)) by lia.
  destruct (Z.leb_spec 0 (i + n)).
  - destruct (Z.ltb_spec (i + n) 0); [lia|].
    replace (Z.to_nat (Z.min (i + n) (Z.of_nat (length a)) - i)) with 0%nat
      by lia.
    reflexivity.
  - destruct (Z.ltb_spec (i + n) 0); [|lia]. f_equal. lia.
Qed.

Lemma length_firstn_skipn (A : Type) (a : list A) (k i : nat) :
  length (firstn k (skipn i a)) = Nat.min k (length a - i).
Proof. now rewrite length_firstn, length_skipn. Qed.

Lemma selectedChunks_forward (p : ProcessedContent) :
  totalChunks p = Z.of_nat (length (pchunks p)) ->
  (0 <= chunkIndex (config p) < totalChunks p)%Z ->
  (0 <= numChunks (config p))%Z ->
  selectedChunks p
  = firstn
      (Z.to_nat (Z.min (numChunks (config p))
                   (totalChunks p - chunkIndex (config p))))
      (skipn (Z.to_nat (chunkIndex (config p))) (pchunks p)).
Proof.
  intros Ht Hi Hn. unfold selectedChunks. rewrite Ht.
  apply slice_forward; lia.
Qed.

(** X13: when chunk size, index and count are integers that a number
    holds exactly, the index is in the range and the count is not
    negative, the report shows the chunks from the index on, as many as
    were asked for or as are left, in order; a count of 0 shows none. *)
Theorem formatResponse_selection (p : ProcessedContent) :
  isSafeInteger (chunkSize (config p)) = true ->
  isSafeInteger (numChunks (config p)) = true ->
  totalChunks p = Z.of_nat (length (pchunks p)) ->
  (0 <= chunkIndex (config p) < totalChunks p)%Z ->
  (0 <= numChunks (config p))%Z ->
  formatResponse p
  = Returns
      (responseHeader p
       ++ responseBody p
            (firstn
               (Z.to_nat (Z.min (numChunks (config p))
                            (totalChunks p - chunkIndex (config p))))
               (skipn (Z.to_nat (chunkIndex (config p))) (pchunks p))))
  /\ Z.of_nat (length (selectedChunks p))
     = Z.min (numChunks (config p)) (totalChunks p - chunkIndex (config p)).
Proof.
  intros _ _ Ht Hi Hn.
  pose proof (selectedChunks_forward p Ht Hi Hn) as Hs.
  split.
  - rewrite (formatResponse_valid p Hi). now rewrite Hs.
  - rewrite Hs, length_firstn_skipn. lia.
Qed.

Lemma formatResponse_selection_witness :
  formatResponse
    {| config := {| chunkSize := 5000; chunkIndex := 1; numChunks := 5 |};
       pchunks := [str "a"; str "b"; str "c"];
       totalChunks := 3 |}
  = Returns
      (str "Configuration:" ++ [nl]
       ++ str "- Chunk size: 5000 words" ++ [nl]
       ++ str "- Starting chunk: 2" ++ [nl]
       ++ str "- Chunks requested: 5" ++ [nl]
       ++ str "- Total available chunks: 3" ++ [nl]
       ++ str "=====================" ++ [nl]
       ++ [nl]
       ++ str "[Chunk 2/3]" ++ [nl] ++ str "b" ++ [nl]
       ++ [nl] ++ str "=====================" ++ [nl]
       ++ str "[Chunk 3/3]" ++ [nl] ++ str "c" ++ [nl]).
Proof.
  exact (proj1 (formatResponse_selection
                  {| config := {| chunkSize := 5000; chunkIndex := 1;
                                  numChunks := 5 |};
                     pchunks := [str "a"; str "b"; str "c"];
                     totalChunks := 3 |}
                  eq_refl eq_refl eq_refl (conj (Z.le_0_1) eq_refl)
                  (Z.lt_le_incl 0 5 eq_refl))).
Defined.

(** X14: a negative count is not refused.  When chunk size, index and
    count are integers that a number holds exactly and the index is in the
    range: if index + count is still not negative the report shows no
    chunk; if it is negative, the end of the slice counts from the end of
    the list, and the report shows the chunks from the index on without
    the last -(index + count) ones, that is, totalChunks + count chunks,
    or none when that is not positive. *)
Theorem formatResponse_negative_count (p : ProcessedContent) :
  isSafeInteger (chunkSize (config p)) = true ->
  isSafeInteger (numChunks (config p)) = true ->
  totalChunks p = Z.of_nat (length (pchunks p)) ->
  (0 <= chunkIndex (config p) < totalChunks p)%Z ->
  (numChunks (config p) < 0)%Z ->
  formatResponse p
  = Returns
      (responseHeader p
       ++ responseBody p
            (if (0 <=? chunkIndex (config p) + numChunks (config p))%Z
             then []
             else skipn (Z.to_nat (chunkIndex (config p)))
                    (firstn
                       (Z.to_nat
                          (totalChunks p
                           + (chunkIndex (config p) + numChunks (config p))))
                       (pchunks p))))
  /\ Z.of_nat (length (selectedChunks p))
     = if (0 <=? chunkIndex (config p) + numChunks (config p))%Z then 0%Z
       else Z.max 0 (totalChunks p + numChunks (config p)).
Proof.
  intros _ _ Ht Hi Hn.
  assert (Hs : selectedChunks p
               = if (0 <=? chunkIndex (config p) + numChunks (config p))%Z
                 then []
                 else skipn (Z.to_nat (chunkIndex (config p)))
                        (firstn
                           (Z.to_nat
                              (totalChunks p
                               + (chunkIndex (config p)
                                  + numChunks (config p))))
                           (pchunks p))).
  { unfold selectedChunks. rewrite Ht at 1.
    rewrite slice_backward by lia. rewrite <- Ht.
    destruct (0 <=? chunkIndex (config p) + numChunks (config p))%Z;
      [reflexivity|].
    rewrite skipn_firstn_comm. f_equal. lia. }
  split.
  - rewrite (formatResponse_valid p Hi). now rewrite Hs.
  - rewrite Hs.
    destruct (Z.leb_spec 0 (chunkIndex (config p) + numChunks (config p)));
      [reflexivity|].
    rewrite length_skipn, length_firstn. lia.
Qed.

Lemma formatResponse_negative_count_witness :
  formatResponse
    {| config := {| chunkSize := 5000; chunkIndex := 1; numChunks := -3 |};
       pchunks := [str "a"; str "b"; str "c"; str "d"; str "e"];
       totalChunks := 5 |}
  = Returns
      (str "Configuration:" ++ [nl]
       ++ str "- Chunk size: 5000 words" ++ [nl]
       ++ str "- Starting chunk: 2" ++ [nl]
       ++ str "- Chunks requested: -3" ++ [nl]
       ++ str "- Total available chunks: 5" ++ [nl]
       ++ str "=====================" ++ [nl]
       ++ [nl]
       ++ str "[Chunk 2/5]" ++ [nl] ++ str "b" ++ [nl]
       ++ [nl] ++ str "=====================" ++ [nl]
       ++ str "[Chunk 3/5]" ++ [nl] ++ str "c" ++ [nl]).
Proof.
  exact (proj1 (formatResponse_negative_count
           {| config := {| chunkSize := 5000; chunkIndex := 1;
                           numChunks := -3 |};
              pchunks := [str "a"; str "b"; str "c"; str "d"; str "e"];
              totalChunks := 5 |}
           eq_refl eq_refl eq_refl (conj (Z.le_0_1) eq_refl) eq_refl)).
Defined.

End Selection.

(** ** From the caption file to the report *)

Section Pipeline.













End Pipeline.

(** ** The tool call *)

Section ToolFacts.

Variable fetch : jsstring -> list (jsstring * jsstring) + jsstring.


(** X18: a URL that is not accepted is answered with the error
    "Error downloading video: Error: Invalid YouTube URL provided",
    whatever the options, and nothing is fetched: the answer does not
    depend on the downloader. *)
Theorem processYoutubeSubtitles_invalid_url (url : jsstring) (args : Args) :
  isValidYoutubeUrl url = false ->
  processYoutubeSubtitles fetch url args
  = {| responseText :=
         str "Error downloading video: Error: Invalid YouTube URL provided";
       isError := true |}
  /\ forall fetch',
       processYoutubeSubtitles fetch' url args
       = processYoutubeSubtitles fetch url args.
Proof.
  intros H. unfold processYoutubeSubtitles, validateAndDownloadSubtitles.
  rewrite H. split; [reflexivity | intros fetch'; reflexivity].
Qed.


End ToolFacts.

Lemma processYoutubeSubtitles_invalid_url_witness :
  processYoutubeSubtitles (fun _ => inl [])
    (str "https://www.youtube.com/watch?v=8hQG7QlcLBk&t=10s")
    {| argChunkSize := None; argChunkIndex := None; argChunks := None |}
  = {| responseText :=
         str "Error downloading video: Error: Invalid YouTube URL provided";
       isError := true |}.
Proof.
  exact (proj1 (processYoutubeSubtitles_invalid_url (fun _ => inl [])
                  (str "https://www.youtube.com/watch?v=8hQG7QlcLBk&t=10s")
                  {| argChunkSize := None; argChunkIndex := None;
                     argChunks := None |} eq_refl)).
Defined.


(** ** What the downloaded files bring into the transcript *)

Section FileLines.

Lemma silentLine_false line :
  silentLine line = false ->
  isMarker line = false /\ isTextLine line = true
  /\ eqbStr (cleanText (trim line)) [] = false.
Proof.
  unfold silentLine. intros H. apply orb_false_iff in H as [Ht Hn].
  apply negb_false_iff in Ht. repeat split; try assumption.
  unfold isTextLine in Ht. apply andb_true_iff in Ht as [_ Hm].
  now apply negb_true_iff.
Qed.

(** X20: the name of a downloaded file and the rule under it become the
    first two lines of the transcript, with the empty time stamp, as if
    they were captions. *)
Theorem file_header_in_transcript (file fileContent : jsstring) :
  noNl file = true ->
  silentLine file = false ->
  cleanText (trim file) <> fileRule ->
  exists more,
    emitted (concatFiles [(file, fileContent)])
    = {| timestamp := []; text := cleanText (trim file) |}
      :: {| timestamp := []; text := fileRule |} :: more.
Proof.
  intros Hnl Hs Hne.
  destruct (silentLine_false file Hs) as (Hm & Ht & Hc).
  unfold emitted, concatFiles, fileEntry. cbn [fold_left fst snd app].
  change (file ++ nl :: str "====================" ++ nl :: fileContent)
    with (file ++ nl :: fileRule ++ nl :: fileContent).
  rewrite (splitLines_line_nl file _ Hnl).
  rewrite (splitLines_line_nl fileRule fileContent eq_refl).
  unfold builderRun. cbn [fold_left].
  destruct (builder_transcript_grows Build_TranscriptLine
              (splitLines fileContent)
              (builderStep Build_TranscriptLine
                 (builderStep Build_TranscriptLine (builderInit _) file)
                 fileRule)) as [more ->].
  exists more.
  rewrite (builderStep_cases Build_TranscriptLine (builderInit _) file).
  rewrite Hm, Ht, Hc. cbn [negb andb builderInit previousText].
  rewrite Hc. cbn [negb].
  rewrite builderStep_cases.
  assert (Hrule : cleanText (trim fileRule) = fileRule)
    by (vm_compute; reflexivity).
  replace (isMarker fileRule) with false by (vm_compute; reflexivity).
  replace (isTextLine fileRule) with true by (vm_compute; reflexivity).
  rewrite Hrule. cbn [previousText currentTimestamp transcript].
  replace (eqbStr fileRule []) with false by (vm_compute; reflexivity).
  replace (eqbStr fileRule (cleanText (trim file))) with false
    by (symmetry; apply eqbStr_neq; congruence).
  reflexivity.
Qed.

Lemma file_header_in_transcript_witness :
  exists more,
    emitted (concatFiles [(str "Talk [8hQG7QlcLBk].en.vtt", str "WEBVTT")])
    = {| timestamp := []; text := str "Talk [8hQG7QlcLBk].en.vtt" |}
      :: {| timestamp := []; text := fileRule |} :: more.
Proof.
  refine (file_header_in_transcript
            (str "Talk [8hQG7QlcLBk].en.vtt") (str "WEBVTT") _ _ _).
  - reflexivity.
  - vm_compute. reflexivity.
  - vm_compute. discriminate.
Defined.

Lemma digit_facts c :
  isDigit c = true ->
  (c =? chr "<")%N = false /\ (c =? chr "a")%N = false /\ isSpace c = false.
Proof.
  unfold isDigit. intros H. apply andb_true_iff in H as [H1 H2].
  apply N.leb_le in H1, H2.
  repeat split; try (apply N.eqb_neq; cbn; lia).
  unfold isSpace. apply orb_false_iff. split.
  - cbn [existsb]. repeat (apply orb_false_iff; split); try reflexivity;
      apply N.eqb_neq; lia.
  - apply andb_false_iff. left. apply N.leb_gt. lia.
Qed.

(** A line that starts with a digit keeps it when cleaned. *)
Lemma cleanText_digit_head c t :
  isDigit c = true -> exists u, cleanText (trim (c :: t)) = c :: u.
Proof.
  intros Hd. destruct (digit_facts c Hd) as (Hlt & Ha & Hs).
  assert (Htrim : forall v, exists v', trim (c :: v) = c :: v').
  { intros v. unfold trim, trimStart. cbn [dropWhile]. rewrite Hs.
    apply (trimEnd_keeps_head c v Hs). }
  destruct (Htrim t) as [t' ->].
  unfold cleanText, replaceAll.
  cbn [replaceFrom]. unfold tagRe at 1. rewrite Hlt.
  cbn [replaceFrom]. unfold alignRe at 1, matchAtoms.
  cbn [lits str list_ascii_of_string map matchesAtoms atomOk].
  change (N_of_ascii "a") with (chr "a"). rewrite Ha. cbn [andb].
  change (replaceFrom spacesRe ?r 0 (c :: ?v))
    with (replaceAll spacesRe r (c :: v)).
  rewrite replaceAll_spaces_cons, Hs.
  apply Htrim.
Qed.

(** X21: a marker of the SubRip form, with commas before the
    milliseconds, is not taken for a marker: it is a text line, and its
    cleaned text is not empty, so it goes into the transcript as text and
    sets no time stamp. *)
Theorem srt_marker_is_text (line : jsstring) :
  test SRT_MARKER (trim line) = true ->
  isMarker line = false /\ isTextLine line = true /\ silentLine line = false.
Proof.
  unfold test, SRT_MARKER, matchAtoms.
  destruct (matchesAtoms _ (trim line)) eqn:E; [intros _|discriminate].
  assert (Hm : isMarker line = false /\ exists c t,
                 trim line = c :: t /\ isDigit c = true).
  { unfold isMarker, test, TIMESTAMP_REGEX, matchAtoms.
    destruct (trim line) as [|c0 s]; [discriminate E|].
    split; [|exists c0, s; split; [reflexivity|];
             cbn [srtClock app matchesAtoms atomOk] in E;
             now apply andb_true_iff in E as [E _]].
    let p := eval vm_compute in (srtClock ++ lits " --> " ++ srtClock) in
    change (srtClock ++ lits " --> " ++ srtClock) with p in E.
    let q := eval vm_compute in (clock ++ lits " --> " ++ clock) in
    change (clock ++ lits " --> " ++ clock) with q.
    do 8 (destruct s as [|? s];
          [cbn [matchesAtoms] in E; rewrite ?andb_false_r in E;
           discriminate E|]).
    cbn [matchesAtoms atomOk] in E.
    repeat match type of E with
           | (_ && _) = true => let H := fresh "H" in
                                apply andb_true_iff in E as [H E]
           end.
    match goal with
    | H : (?x =? 44)%N = true |- _ => apply N.eqb_eq in H; subst x
    end.
    cbn [matchesAtoms atomOk]. change (44 =? 46)%N with false.
    rewrite !andb_false_r. reflexivity. }
  destruct Hm as (Hm & c & t & Ht & Hd).
  assert (Htext : isTextLine line = true).
  { unfold isTextLine. rewrite Hm, Ht.
    replace (eqbStr (c :: t) []) with false
      by (symmetry; apply eqbStr_neq; discriminate).
    reflexivity. }
  repeat split; try assumption.
  unfold silentLine. rewrite Htext. cbn [negb orb].
  apply eqbStr_neq.
  assert (Hidem : trim (c :: t) = c :: t)
    by (rewrite <- Ht; apply trim_idempotent).
  destruct (cleanText_digit_head c t Hd) as [u Hu].
  rewrite Ht, <- Hidem, Hu. discriminate.
Qed.

Lemma srt_marker_is_text_witness :
  isMarker (str "00:00:01,000 --> 00:00:03,000") = false.
Proof.
  exact (proj1 (srt_marker_is_text (str "00:00:01,000 --> 00:00:03,000")
                  eq_refl)).
Defined.

End FileLines.

(** ** The words of a transcript line *)

Section TranscriptWords.

Lemma matchesAtoms_app p q a b :
  matchesAtoms p a = true -> length a = length p ->
  matchesAtoms (p ++ q) (a ++ b) = matchesAtoms q b.
Proof.
  revert a. induction p as [|x p IH]; intros a Hm Hl.
  - destruct a; [reflexivity | discriminate].
  - destruct a as [|c a]; [discriminate|].
    cbn [matchesAtoms length app] in *.
    apply andb_true_iff in Hm as [Hc Hm]. rewrite Hc. cbn [andb].
    apply IH; [exact Hm | lia].
Qed.

Lemma stampRe_rendered ts rest :
  clockShape ts = true ->
  stampRe (chr "[" :: (ts ++ [chr "]"]) ++ rest) = Some 14%nat.
Proof.
  unfold clockShape. intros H. apply andb_true_iff in H as [Hm Hl].
  apply Nat.eqb_eq in Hl.
  unfold stampRe, matchAtoms. cbn [matchesAtoms atomOk].
  rewrite N.eqb_refl. cbn [andb]. rewrite <- app_assoc.
  rewrite (matchesAtoms_app clock [Lit (chr "]")] ts _ Hm Hl).
  cbn [app matchesAtoms atomOk]. rewrite N.eqb_refl. reflexivity.
Qed.

Lemma countWords_rendered_stamp ts txt :
  clockShape ts = true -> occurs stampRe txt = false ->
  countWords (render ts txt) = Z.of_nat (Nat.max 1 (wordsIn txt)).
Proof.
  intros Hts Htxt. rewrite countWords_words. do 2 f_equal.
  unfold render.
  change (str "[" ++ ts ++ str "] " ++ txt)
    with (chr "[" :: ts ++ chr "]" :: chr " " :: txt).
  replace (ts ++ chr "]" :: chr " " :: txt)
    with ((ts ++ [chr "]"]) ++ chr " " :: txt)
    by now rewrite <- app_assoc.
  unfold replaceAll. cbn [replaceFrom].
  rewrite (stampRe_rendered ts (chr " " :: txt) Hts). cbn [app].
  assert (Hl : length (ts ++ [chr "]"]) = 13%nat).
  { unfold clockShape in Hts. apply andb_true_iff in Hts as [_ Hl].
    apply Nat.eqb_eq in Hl. rewrite length_app, Hl. reflexivity. }
  rewrite <- Hl, replaceFrom_skip.
  cbn [replaceFrom]. rewrite (stampRe_space (chr " ") txt eq_refl).
  fold (replaceAll stampRe [] txt).
  rewrite (replaceAll_no_match stampRe [] txt Htxt). reflexivity.
Qed.

Lemma countWords_rendered_empty txt :
  occurs stampRe txt = false ->
  countWords (render [] txt) = (1 + Z.of_nat (wordsIn txt))%Z.
Proof.
  intros Htxt. rewrite countWords_words.
  assert (Hocc : occurs stampRe (render [] txt) = false).
  { unfold render. cbn [app str list_ascii_of_string map occurs].
    now rewrite Htxt. }
  rewrite (replaceAll_no_match stampRe [] _ Hocc).
  unfold render, wordsIn. cbn [app str list_ascii_of_string map wordRuns].
  change (isSpace (N_of_ascii "[")) with false.
  change (isSpace (N_of_ascii "]")) with false.
  change (isSpace (N_of_ascii " ")) with true. cbn iota. lia.
Qed.

(** X22: in a transcript line whose text holds no token of the form
    [[dd:dd:dd.ddd]], a start time does not count as a word: the count of
    the line is the number of words of its text (1 for none); but the
    empty time stamp, rendered "[]", counts as one word more. *)
Theorem countWords_transcript_line (ts txt : jsstring) :
  occurs stampRe txt = false ->
  stampOk ts = true ->
  countWords (render ts txt)
  = if eqbStr ts [] then (1 + Z.of_nat (wordsIn txt))%Z
    else Z.of_nat (Nat.max 1 (wordsIn txt)).
Proof.
  intros Htxt Hts. unfold stampOk in Hts.
  destruct (eqbStr ts []) eqn:E.
  - apply eqbStr_eq in E. subst ts. now apply countWords_rendered_empty.
  - cbn [orb] in Hts. now apply countWords_rendered_stamp.
Qed.

Lemma countWords_transcript_line_witness :
  countWords (str "[00:00:01.000] Hello world") = 2%Z
  /\ countWords (str "[] Hello world") = 3%Z.
Proof.
  split.
  - exact (countWords_transcript_line (str "00:00:01.000")
             (str "Hello world") eq_refl eq_refl).
  - exact (countWords_transcript_line [] (str "Hello world")
             eq_refl eq_refl).
Defined.

End TranscriptWords.

(** ** Chunks of a request, and repeated captions *)

Section Composition.

Lemma splitIntoChunks_lines text w :
  concat (map splitLines (splitIntoChunks text w)) = splitLines text.
Proof.
  pose proof (chunkLinesOf_concat w (splitLines text)) as Hcat.
  pose proof (chunkLinesOf_nonempty w (splitLines text)) as Hne.
  pose proof (splitLines_noNl text) as Hnl.
  rewrite splitIntoChunks_chunkLines.
  unfold chunkLines. fold (chunkLinesOf w (splitLines text)).
  rewrite concat_map_splitLines; [assumption | assumption |].
  now rewrite Hcat.
Qed.

(** X23: the chunks of a request, cut into lines and put end to end, are
    the rendered emitted lines in their order: no chunk boundary falls
    inside a transcript line, and no line is missing or comes twice. *)
Theorem request_chunks_are_emitted_lines (content : jsstring)
    (args : Args) :
  concat (map splitLines (pchunks (processSubtitleContent content args)))
  = match emitted content with
    | [] => [[]]
    | _ => map renderLine (emitted content)
    end.
Proof.
  unfold processSubtitleContent. cbn [pchunks].
  rewrite splitIntoChunks_lines. apply splitLines_processSubtitles.
Qed.

Lemma builderStep_repeat (A : Type) (mk : jsstring -> jsstring -> A) st l :
  builderStep mk (builderStep mk st l) l = builderStep mk st l.
Proof.
  rewrite (builderStep_cases mk st l).
  destruct (isMarker l) eqn:Hm.
  - rewrite builderStep_cases, Hm. reflexivity.
  - destruct (isTextLine l && _ && _) eqn:Hc.
    + rewrite builderStep_cases, Hm. cbn [previousText].
      replace (eqbStr (cleanText (trim l)) (cleanText (trim l))) with true
        by (symmetry; now apply eqbStr_eq).
      now rewrite andb_false_r.
    + rewrite builderStep_cases, Hm, Hc. reflexivity.
Qed.

(** After a line, the same line again adds nothing, also when markers and
    blank lines stand between the two. *)
Lemma builder_repeat_after (A : Type) (mk : jsstring -> jsstring -> A)
    st l mid :
  forallb (fun x => negb (isTextLine x)) mid = true ->
  transcript
    (builderStep mk (fold_left (builderStep mk) mid (builderStep mk st l)) l)
  = transcript (builderStep mk st l).
Proof.
  intros Hmid.
  destruct (builder_marker_run mk mid (builderStep mk st l) Hmid)
    as (Ht & Hp & _).
  destruct (isMarker l) eqn:Hm.
  - rewrite (builderStep_cases mk (fold_left _ _ _) l), Hm.
    cbn [transcript]. exact Ht.
  - rewrite (builderStep_cases mk (fold_left _ _ _) l), Hm, Hp, Ht.
    pose proof (builderStep_repeat mk st l) as Hr.
    rewrite (builderStep_cases mk (builderStep mk st l) l), Hm in Hr.
    destruct (isTextLine l && _ && _).
    + apply (f_equal (@transcript A)) in Hr. cbn [transcript] in Hr.
      apply (f_equal (@length A)) in Hr. rewrite length_app in Hr.
      cbn [length] in Hr. lia.
    + exact Ht.
Qed.

(** X24: a caption that comes again right after itself, or after markers
    and blank lines only, is emitted once: the lines emitted up to the
    second occurrence are those emitted up to the first. *)
Theorem repeated_caption_emitted_once (pre mid : list jsstring)
    (line : jsstring) :
  forallb (fun x => negb (isTextLine x)) mid = true ->
  emittedOf (pre ++ line :: mid ++ [line]) = emittedOf (pre ++ [line]).
Proof.
  intros Hmid. unfold emittedOf, builderRun.
  replace (pre ++ line :: mid ++ [line])
    with ((pre ++ [line]) ++ mid ++ [line])
    by now rewrite <- app_assoc.
  rewrite !fold_left_app. cbn [fold_left].
  now apply builder_repeat_after.
Qed.

Lemma repeated_caption_emitted_once_witness :
  emittedOf
    ([str "00:00:01.000 --> 00:00:03.000"]
     ++ str "Hello world"
     :: [[]; str "00:00:03.000 --> 00:00:05.000"] ++ [str "Hello world"])
  = emittedOf ([str "00:00:01.000 --> 00:00:03.000"] ++ [str "Hello world"]).
Proof.
  exact (repeated_caption_emitted_once
           [str "00:00:01.000 --> 00:00:03.000"]
           [[]; str "00:00:03.000 --> 00:00:05.000"]
           (str "Hello world") eq_refl).
Defined.

End Composition.

(** ** The chunk size for options of any kind *)

Section AnyOptions.

Local Abbreviation leq := QArith_base.Qle_bool.
Local Abbreviation int := QArith_base.inject_Z.

Lemma leq_total p q : leq p q = false -> leq q p = true.
Proof.
  unfold QArith_base.Qle_bool. intros H.
  apply Z.leb_gt in H. apply Z.leb_le. lia.
Qed.

Lemma leq_int a b : leq (int a) (int b) = (a <=? b)%Z.
Proof.
  unfold QArith_base.Qle_bool, QArith_base.inject_Z. cbn.
  now rewrite !Z.mul_1_r.
Qed.

(** The clamp on a number: [Math.min(Math.max(x, 5000), 20000)]. *)
Lemma clamp_number (x : JsNumber) :
  mathMin (mathMax x (ofInt 5000)) (ofInt 20000) =
    match x with
    | NaN => NaN
    | NegInf => ofInt 5000
    | PosInf => ofInt 20000
    | Fin q =>
        if leq q (int 5000) then ofInt 5000
        else if leq q (int 20000) then Fin q else ofInt 20000
    end.
Proof.
  destruct x as [| | |q]; try reflexivity.
  unfold mathMax, mathMin, ofInt.
  destruct (leq q (int 5000)); reflexivity.
Qed.

Lemma clamp_in_range (x : JsNumber) :
  inChunkSizeRange (mathMin (mathMax x (ofInt 5000)) (ofInt 20000))
  = negb (isNaN x).
Proof.
  rewrite clamp_number. destruct x as [| | |q]; try reflexivity.
  destruct (leq q (int 5000)) eqn:E1; [reflexivity|].
  destruct (leq q (int 20000)) eqn:E2; [|reflexivity].
  cbn [inChunkSizeRange isNaN negb]. now rewrite (leq_total _ _ E1), E2.
Qed.

(** On options that are integers or absent, the configuration is the one
    of [validateConfig]. *)
Lemma validateConfigAny_integers (args : Args) :
  chunkSizeOf (validateConfigAny (ofArgs args))
  = ofInt (chunkSize (validateConfig args))
  /\ chunkIndexOf (validateConfigAny (ofArgs args))
     = Number (ofInt (chunkIndex (validateConfig args)))
  /\ numChunksOf (validateConfigAny (ofArgs args))
     = ofInt (numChunks (validateConfig args)).
Proof.
  unfold validateConfigAny, validateConfig, ofArgs, CHUNK_SIZE_DEFAULT,
    CHUNK_SIZE_MIN, CHUNK_SIZE_MAX, CHUNKS_DEFAULT, CHUNKS_MAX.
  cbn [anyChunkSize anyChunkIndex anyChunks chunkSizeOf chunkIndexOf
       numChunksOf chunkSize chunkIndex numChunks].
  split; [|split].
  - rewrite clamp_number.
    destruct (argChunkSize args) as [z|]; cbn [ofOption orDefault toNumber
      orElse]; [|reflexivity].
    unfold ofInt at 1. rewrite !leq_int.
    destruct (Z.leb_spec z 5000); [f_equal; f_equal; lia|].
    destruct (Z.leb_spec z 20000); unfold ofInt; f_equal; f_equal; lia.
  - destruct (argChunkIndex args); reflexivity.
  - destruct (argChunks args) as [z|]; cbn [ofOption orDefault toNumber
      orElse]; [|reflexivity].
    unfold mathMin, ofInt. rewrite leq_int.
    destruct (Z.leb_spec z 5); f_equal; f_equal; lia.
Qed.

(** C5 as stated fails: an option that is no number and that [ToNumber]
    turns into [NaN], such as the string "abc", is resolved to [NaN],
    which is not in [5000, 20000]; so is the number [NaN] itself. *)
Lemma validateConfigAny_chunkSize_not_clamped :
  chunkSizeOf
    (validateConfigAny
       {| anyChunkSize := NonNumber NaN; anyChunkIndex := Undefined;
          anyChunks := Undefined |}) = NaN
  /\ inChunkSizeRange
       (chunkSizeOf
          (validateConfigAny
             {| anyChunkSize := NonNumber NaN; anyChunkIndex := Undefined;
                anyChunks := Undefined |})) = false
  /\ inChunkSizeRange
       (chunkSizeOf
          (validateConfigAny
             {| anyChunkSize := Number NaN; anyChunkIndex := Undefined;
                anyChunks := Undefined |})) = false.
Proof. repeat split. Qed.

(** C5, as the code has it: the resolved chunkSize lies in [5000, 20000]
    exactly when the option is absent or converts to a number other than
    [NaN]: an absent option gives 5000, a value up to 5000 gives 5000, a
    value above 20000 gives 20000, a value in between is kept, so 1 gives
    5000 and 999999 gives 20000; an option that converts to [NaN] gives
    [NaN].  On integer options this is the chunkSize of
    [validateConfig]. *)
Theorem validateConfigAny_chunkSize (args : AnyArgs) :
  chunkSizeOf (validateConfigAny args) =
    match toNumber (orDefault (anyChunkSize args) (ofInt 5000)) with
    | NaN => NaN
    | NegInf => ofInt 5000
    | PosInf => ofInt 20000
    | Fin q =>
        if leq q (int 5000) then ofInt 5000
        else if leq q (int 20000) then Fin q else ofInt 20000
    end
  /\ inChunkSizeRange (chunkSizeOf (validateConfigAny args))
     = negb (isNaN (toNumber (orDefault (anyChunkSize args) (ofInt 5000))))
  /\ (forall i n,
        chunkSizeOf (validateConfigAny
          {| anyChunkSize := Undefined; anyChunkIndex := i; anyChunks := n |})
        = ofInt 5000
        /\ chunkSizeOf (validateConfigAny
             {| anyChunkSize := Null; anyChunkIndex := i; anyChunks := n |})
           = ofInt 5000
        /\ chunkSizeOf (validateConfigAny
             {| anyChunkSize := Number (ofInt 1); anyChunkIndex := i;
                anyChunks := n |}) = ofInt 5000
        /\ chunkSizeOf (validateConfigAny
             {| anyChunkSize := Number (ofInt 999999); anyChunkIndex := i;
                anyChunks := n |}) = ofInt 20000)
  /\ (forall ints : Args,
        chunkSizeOf (validateConfigAny (ofArgs ints))
        = ofInt (chunkSize (validateConfig ints))
        /\ inChunkSizeRange (chunkSizeOf (validateConfigAny (ofArgs ints)))
           = true).
Proof.
  split; [apply clamp_number|].
  split; [apply clamp_in_range|].
  split; [intros i n; repeat split|].
  intros ints. split; [apply validateConfigAny_integers|].
  unfold validateConfigAny. cbn [chunkSizeOf].
  unfold CHUNK_SIZE_DEFAULT, CHUNK_SIZE_MIN, CHUNK_SIZE_MAX.
  rewrite clamp_in_range.
  unfold ofArgs. cbn [anyChunkSize].
  destruct (argChunkSize ints); reflexivity.
Qed.

End AnyOptions.
